(** * Signal-analysis engine of the formula playground

    A shallow embedding of [utils/entropyCalculator.ts] and of
    [utils/samplingCalculator.ts]: the generated signal and its histogram
    entropy, the three-tone reference signal, its sampling grid and its sinc
    reconstruction, the reconstruction error, and the classification of a
    sampling rate against the Nyquist rate; with them the data and the scales
    that the components compute for the two plots.

    A TypeScript [number] is an IEEE 754 binary64 value.  The functions are
    written once, over two interfaces: [JSNumber], the arithmetic and the
    [Math] operations that IEEE 754 fixes, and [JSMath], the functions
    [Math.log2], [Math.sin] and [Math.cos], which ECMAScript leaves
    implementation-approximated.  They are read at two carriers:
    - [Binary64]: the kernel's primitive binary64 floats, where the code runs
      as it does in a JavaScript engine (rounding, NaN, infinities, signed
      zeros); it is an instance of [JSNumber], and statements about code that
      calls [JSMath] hold for every implementation of it;
    - [Exact]: the real numbers, the arithmetic the formulas of the sources are
      about; it has no NaN, no infinity and no rounding. *)

From Stdlib Require Import ZArith NArith Nnat List Bool String Lia.
From Stdlib Require Import Floats.
From Stdlib Require Import Reals Lra.
From Stdlib Require Import Permutation.
Import ListNotations.

Set Implicit Arguments.

(** A decimal literal of [float_scope] denotes the nearest binary64 number, as
    a numeric literal does in JavaScript. *)
Set Warnings "-inexact-float".

(** ** The [number] interface *)

Class JSNumber (num : Type) : Type := {
  (** an integer literal, or an array length read as a number *)
  of_Z : Z -> num;
  (** the literal [1e-10] *)
  lit_1e_10 : num;
  add : num -> num -> num;
  sub : num -> num -> num;
  mul : num -> num -> num;
  div : num -> num -> num;
  (** unary minus *)
  neg : num -> num;
  (** [a < b] and [a <= b]; [a > b] is [ltb b a] *)
  ltb : num -> num -> bool;
  leb : num -> num -> bool;
  Math_abs : num -> num;
  Math_floor : num -> num;
  Math_max : num -> num -> num;
  Math_min : num -> num -> num;
  Math_sqrt : num -> num;
  Math_PI : num;
  (** the array index a number denotes when it is used as a property key:
      [Some i] for the integer [i] in [0 .. 2^32 - 2], [None] for any other
      number (a fraction, a negative number, NaN, an infinity) *)
  to_index : num -> option N
}.

Class JSMath (num : Type) : Type := {
  Math_log2 : num -> num;
  Math_sin : num -> num;
  Math_cos : num -> num
}.

Definition of_nat {num} `{JSNumber num} (n : nat) : num := of_Z (Z.of_nat n).

(** ** Binary64 numbers *)

Module Binary64.

(** The float an integer of magnitude below [2^63] rounds to. *)
Definition float_of_Z (z : Z) : float :=
  match z with
  | Z0 => PrimFloat.zero
  | Zpos _ => PrimFloat.of_uint63 (Uint63.of_Z z)
  | Zneg p => PrimFloat.opp (PrimFloat.of_uint63 (Uint63.of_Z (Zpos p)))
  end.

(** [Math.floor]: NaN, the infinities, the zeros and the floats without a
    fractional part are returned as they are; otherwise the float is
    [(-1)^s * m * 2^e] with [e < 0], and its floor is [m / 2^-e] rounded
    towards minus infinity. *)
Definition floor (x : float) : float :=
  match Prim2SF x with
  | S754_finite s m e =>
      if (0 <=? e)%Z then x
      else
        let q := Z.shiftr (Zpos m) (- e) in
        if (Z.shiftl q (- e) =? Zpos m)%Z then x
        else if s then float_of_Z (- (q + 1)) else float_of_Z q
  | _ => x
  end.

(** [Math.max]: NaN when an argument is NaN, and [+0] is larger than [-0]. *)
Definition max (a b : float) : float :=
  if PrimFloat.is_nan a || PrimFloat.is_nan b then PrimFloat.nan
  else if PrimFloat.ltb a b then b
  else if PrimFloat.ltb b a then a
  else if PrimFloat.get_sign a then b else a.

(** [Math.min]: NaN when an argument is NaN, and [-0] is smaller than [+0]. *)
Definition min (a b : float) : float :=
  if PrimFloat.is_nan a || PrimFloat.is_nan b then PrimFloat.nan
  else if PrimFloat.ltb a b then a
  else if PrimFloat.ltb b a then b
  else if PrimFloat.get_sign a then a else b.

(** A float names an array element when it is a non-negative integer below
    [2^32 - 1] (the key of [-0] is ["0"]). *)
Definition index (x : float) : option N :=
  match Prim2SF x with
  | S754_zero _ => Some 0%N
  | S754_finite false m e =>
      let z := if (0 <=? e)%Z then Z.shiftl (Zpos m) e
               else Z.shiftr (Zpos m) (- e) in
      let whole := (0 <=? e)%Z || (Z.shiftl z (- e) =? Zpos m)%Z in
      if whole && (z <? 4294967295)%Z then Some (Z.to_N z) else None
  | _ => None
  end.

(** The value of [Math.PI], the binary64 number nearest to pi. *)
Definition PI : float := 0x1.921fb54442d18p+1%float.

#[global] Instance number : JSNumber float := {|
  of_Z := float_of_Z;
  lit_1e_10 := 0x1.b7cdfd9d7bdbbp-34%float;
  add := PrimFloat.add;
  sub := PrimFloat.sub;
  mul := PrimFloat.mul;
  div := PrimFloat.div;
  neg := PrimFloat.opp;
  ltb := PrimFloat.ltb;
  leb := PrimFloat.leb;
  Math_abs := PrimFloat.abs;
  Math_floor := floor;
  Math_max := max;
  Math_min := min;
  Math_sqrt := PrimFloat.sqrt;
  Math_PI := PI;
  to_index := index
|}.

End Binary64.

(** ** Exact numbers

    The real-number reading of the same interface.  It agrees with the
    formulas of the sources wherever these divide by a non-zero number and
    take [Math.log2] of a positive one; a division by zero is not an infinity
    here, and there is no NaN. *)

Module Exact.

Definition index (x : R) : option N :=
  let z := Zfloor x in
  if Req_dec_T (IZR z) x then
    if ((0 <=? z) && (z <? 4294967295))%Z then Some (Z.to_N z) else None
  else None.

#[global] Instance number : JSNumber R := {|
  of_Z := IZR;
  lit_1e_10 := (/ 10000000000)%R;
  add := Rplus;
  sub := Rminus;
  mul := Rmult;
  div := Rdiv;
  neg := Ropp;
  ltb := fun a b => if Rlt_dec a b then true else false;
  leb := fun a b => if Rle_dec a b then true else false;
  Math_abs := Rabs;
  Math_floor := fun x => IZR (Zfloor x);
  Math_max := Rmax;
  Math_min := Rmin;
  Math_sqrt := sqrt;
  Math_PI := PI;
  to_index := index
|}.

#[global] Instance math : JSMath R := {|
  Math_log2 := fun x => (ln x / ln 2)%R;
  Math_sin := sin;
  Math_cos := cos
|}.

End Exact.

(** ** JavaScript arrays and completions *)

(** [a[i] = v] on an array whose elements [0 .. length - 1] are all present. *)
Fixpoint array_set {A : Type} (a : list A) (i : nat) (v : A) : list A :=
  match a, i with
  | [], _ => []
  | _ :: rest, O => v :: rest
  | x :: rest, S j => x :: array_set rest j v
  end.

(** The errors a call can be said to fail with. *)
Inductive JSError : Type :=
| InvalidRateError.

(** How a call that contains a loop ends: it returns, it throws, or the loop
    is still running when the fuel given to it is spent. *)
Inductive completion (A : Type) : Type :=
| Returned (a : A)
| Thrown (e : JSError)
| Running.
Arguments Thrown {A} e.
Arguments Running {A}.

Declare Scope js_scope.
Delimit Scope js_scope with js.

(** ** utils/entropyCalculator.ts *)

Record SignalPoint (num : Type) : Type := {
  index : num;
  value : num
}.

(** An entry of [stepByStep].  The [description] and [detailedExplanation]
    fields are display prose and are not part of the embedding. *)
Record DerivationStep (num : Type) : Type := {
  step : string;
  stepValue : num
}.

Record EntropyResult (num : Type) : Type := {
  entropy : num;
  probabilities : list num;
  stepByStep : list (DerivationStep num)
}.

Section Engine.
Context {num : Type} {number : JSNumber num} {math : JSMath num}.

Local Infix "+" := add : js_scope.
Local Infix "-" := sub : js_scope.
Local Infix "*" := mul : js_scope.
Local Infix "/" := div : js_scope.
Local Notation "- x" := (neg x) : js_scope.
Local Infix "<?" := ltb : js_scope.
Local Infix "<=?" := leb : js_scope.
Local Notation "x >? y" := (ltb y x) (at level 70) : js_scope.
Local Abbreviation lit := of_Z.
Local Open Scope js_scope.

(** [function discretizeSignal(signal, numBins = 20)] *)
Definition discretizeSignal (signal : list (SignalPoint num)) (numBins : nat)
  : list num :=
  let min := lit (-2) in
  let max := lit 2 in
  let binWidth := (max - min) / of_nat numBins in
  map (fun point =>
         let bin := Math_floor ((value point - min) / binWidth) in
         Math_max (lit 0) (Math_min (of_nat numBins - lit 1) bin))
      signal.

(** [counts[bin]++].  A [bin] that is no array index sets a property beside
    the elements and leaves them as they are.  An index at or beyond the
    length would make the array grow, with holes and a NaN entry: such an
    array is not a [list], and the result is [None]. *)
Definition array_incr (counts : list num) (bin : num) : option (list num) :=
  match to_index bin with
  | None => Some counts
  | Some i =>
      if (i <? N.of_nat (List.length counts))%N then
        let k := N.to_nat i in
        Some (array_set counts k (nth k counts (lit 0) + lit 1))
      else None
  end.

(** [const counts = new Array(numBins).fill(0);
     discretized.forEach(bin => { counts[bin]++; });] *)
Definition countBins (discretized : list num) (numBins : nat)
  : option (list num) :=
  fold_left (fun counts bin =>
               match counts with
               | Some c => array_incr c bin
               | None => None
               end)
            discretized (Some (repeat (lit 0) numBins)).

(** [function calculateJointProbability(signal, numBins = 20)] *)
Definition calculateJointProbability (signal : list (SignalPoint num))
  (numBins : nat) : option (list num) :=
  let discretized := discretizeSignal signal numBins in
  match countBins discretized numBins with
  | Some counts =>
      let total := of_nat (List.length signal) in
      Some (map (fun count => count / total) counts)
  | None => None
  end.

(** The body of [probabilities.forEach((p, i) => { if (p > 0) ... })]: the
    pair holds [contributions] and [entropy]. *)
Definition addContribution (acc : list num * num) (p : num) : list num * num :=
  let (contributions, entropy) := acc in
  if p >? lit 0 then
    let logP := Math_log2 p in
    let contribution := (- p) * logP in
    (contributions ++ [contribution], entropy + contribution)
  else acc.

(** [export function calculateEntropy(signal)] *)
Definition calculateEntropy (signal : list (SignalPoint num))
  : option (EntropyResult num) :=
  match signal with
  | [] => Some {| entropy := lit 0; probabilities := []; stepByStep := [] |}
  | _ :: _ =>
      let numBins := 20%nat in
      match calculateJointProbability signal numBins with
      | None => None
      | Some probabilities =>
          let step1 := {| step := "1"; stepValue := of_nat (List.length signal) |} in
          let step2 :=
            {| step := "2";
               stepValue :=
                 of_nat (List.length (filter (fun p => p >? lit 0) probabilities)) |} in
          let (contributions, entropy) :=
            fold_left addContribution probabilities ([], lit 0) in
          let step3 := {| step := "3"; stepValue := entropy |} in
          let step4 := {| step := "4"; stepValue := entropy |} in
          Some {| entropy := Math_max (lit 0) entropy;
                  probabilities := probabilities;
                  stepByStep := [step1; step2; step3; step4] |}
      end
  end.

(** ** utils/samplingCalculator.ts *)

Record SignalConfig : Type := {
  f1 : num;
  f2 : num;
  f3 : num;
  fMax : num;
  nyquistRate : num;
  dc : num
}.

Definition SIGNAL_CONFIG : SignalConfig := {|
  f1 := lit 50;
  f2 := lit 100;
  f3 := lit 250;
  fMax := lit 250;
  nyquistRate := lit 500;
  dc := lit 7
|}.

(** [export function originalSignal(t)] *)
Definition originalSignal (t : num) : num :=
  Math_cos (lit 2 * Math_PI * f1 SIGNAL_CONFIG * t)
  + Math_sin (lit 2 * Math_PI * f2 SIGNAL_CONFIG * t)
  + Math_cos (lit 2 * Math_PI * f3 SIGNAL_CONFIG * t + Math_PI / lit 4)
  + dc SIGNAL_CONFIG.

(** [export function sampleSignal(timePoints)] *)
Definition sampleSignal (timePoints : list num) : list num :=
  map (fun t => originalSignal t) timePoints.

(** [function sinc(x)] *)
Definition sinc (x : num) : num :=
  if Math_abs x <? lit_1e_10 then lit 1
  else Math_sin (Math_PI * x) / (Math_PI * x).

(** The loop of [generateSampleTimePoints]:
    [while (t <= end + Ts / 2) { points.push(t); t += Ts; }] *)
Fixpoint sampleLoop (fuel : nat) (end_ Ts t : num) (points : list num)
  : completion (list num) :=
  match fuel with
  | O => Running
  | S fuel' =>
      if t <=? end_ + Ts / lit 2
      then sampleLoop fuel' end_ Ts (t + Ts) (points ++ [t])
      else Returned points
  end.

(** [export function generateSampleTimePoints(start, end, fs)] *)
Definition generateSampleTimePoints (fuel : nat) (start end_ fs : num)
  : completion (list num) :=
  let Ts := lit 1 / fs in
  sampleLoop fuel end_ Ts start [].

Inductive SamplingStatus : Type :=
| adequate
| nyquist
| insufficient.

(** [export function getSamplingStatus(fs)], its [status] field; [color] and
    [message] are display strings. *)
Definition getSamplingStatus (fs : num) : SamplingStatus :=
  let nyquistRate := nyquistRate SIGNAL_CONFIG in
  if fs >? nyquistRate then adequate
  else if Math_abs (fs - nyquistRate) <? lit 1 then nyquist
  else insufficient.

End Engine.

(** ** The rest of utils/entropyCalculator.ts and utils/samplingCalculator.ts *)

(** The literal [0.5]: one half, which a binary64 number holds exactly. *)
Definition lit_0_5 {num : Type} `{JSNumber num} : num := div (of_Z 1) (of_Z 2).

(** What [calculateReconstructionError] returns: the number [Infinity], or
    the root of a mean square. *)
Inductive ErrorMeasure (num : Type) : Type :=
| Infinity
| Rms (e : num).
Arguments Infinity {num}.

Section Utilities.
Context {num : Type} {number : JSNumber num} {math : JSMath num}.

Local Infix "+" := add : js_scope.
Local Infix "-" := sub : js_scope.
Local Infix "*" := mul : js_scope.
Local Infix "/" := div : js_scope.
Local Infix "<=?" := leb : js_scope.
Local Abbreviation lit := of_Z.
Local Open Scope js_scope.

(** The loop of [generateSignal],
    [for (let i = 1; i <= N; i++) { ...; signal.push({ index: i, value: ... }) }],
    with [count] rounds to go; [random i] is what [Math.random()] returns in
    round [i]. *)
Fixpoint signalLoop (random : nat -> num) (N : nat) (noiseVariance : num)
  (count i : nat) (signal : list (SignalPoint num)) : list (SignalPoint num) :=
  match count with
  | O => signal
  | S count' =>
      let baseValue :=
        Math_sin (of_nat i / of_nat N * lit 2 * Math_PI) * lit_0_5 in
      let noise := (random i - lit_0_5) * lit 2 * Math_sqrt noiseVariance in
      let value := baseValue + noise in
      signalLoop random N noiseVariance count' (S i)
        (signal ++ [{| index := of_nat i;
                       value := Math_max (lit (-2)) (Math_min (lit 2) value) |}])
  end.

(** [export function generateSignal(N, noiseVariance = 0.5)], for a number of
    samples [N] that is a natural number. *)
Definition generateSignal (random : nat -> num) (N : nat) (noiseVariance : num)
  : list (SignalPoint num) :=
  signalLoop random N noiseVariance N 1 [].

(** [sampleTimes.findIndex(ts => ts >= t)], counting from [i]; [None] is the
    index [-1]. *)
Fixpoint findIndexFrom (t : num) (sampleTimes : list num) (i : nat)
  : option nat :=
  match sampleTimes with
  | [] => None
  | ts :: rest => if t <=? ts then Some i else findIndexFrom t rest (S i)
  end.

(** The loops of [sincReconstruct],
    [for (let i = startIdx; i < endIdx; i++)
       reconstructed += samples[i] * sinc((t - sampleTimes[i]) / Ts)],
    with [count] rounds to go.  An index beyond an array reads [undefined],
    and the sum is NaN from there on: [None]. *)
Fixpoint reconstructLoop (t Ts : num) (sampleTimes samples : list num)
  (count i : nat) (reconstructed : option num) : option num :=
  match count with
  | O => reconstructed
  | S count' =>
      reconstructLoop t Ts sampleTimes samples count' (S i)
        match reconstructed, nth_error sampleTimes i, nth_error samples i with
        | Some r, Some t_n, Some x => Some (r + x * sinc ((t - t_n) / Ts))
        | _, _, _ => None
        end
  end.

(** [export function sincReconstruct(t, sampleTimes, samples, Ts)].  The
    indices are natural numbers, on which [a - 20] is [Math.max(0, a - 20)]. *)
Definition sincReconstruct (t : num) (sampleTimes samples : list num) (Ts : num)
  : option num :=
  let windowSize := 20%nat in
  match findIndexFrom t sampleTimes 0 with
  | None =>
      let startIdx := (List.length sampleTimes - windowSize)%nat in
      reconstructLoop t Ts sampleTimes samples
        (List.length sampleTimes - startIdx) startIdx (Some (lit 0))
  | Some centerIndex =>
      let startIdx := (centerIndex - windowSize)%nat in
      let endIdx :=
        Nat.min (List.length sampleTimes) (centerIndex + windowSize) in
      reconstructLoop t Ts sampleTimes samples
        (endIdx - startIdx) startIdx (Some (lit 0))
  end.

(** The loop of [generateContinuousTimePoints],
    [for (let i = 0; i < numPoints; i++) points.push(start + i * step)]. *)
Fixpoint continuousLoop (start step : num) (count i : nat) (points : list num)
  : list num :=
  match count with
  | O => points
  | S count' =>
      continuousLoop start step count' (S i) (points ++ [start + of_nat i * step])
  end.

(** [export function generateContinuousTimePoints(start, end, numPoints = 1000)] *)
Definition generateContinuousTimePoints (start end_ : num) (numPoints : nat)
  : list num :=
  let step := (end_ - start) / (of_nat numPoints - lit 1) in
  continuousLoop start step numPoints 0 [].

(** The loop of [calculateReconstructionError] over two arrays of one length:
    [const error = original[i] - reconstructed[i];
     sumSquaredError += error * error;] *)
Fixpoint sumSquaredErrorFrom (original reconstructed : list num)
  (sumSquaredError : num) : num :=
  match original, reconstructed with
  | o :: original', r :: reconstructed' =>
      let error := o - r in
      sumSquaredErrorFrom original' reconstructed'
        (sumSquaredError + error * error)
  | _, _ => sumSquaredError
  end.

(** [export function calculateReconstructionError(original, reconstructed,
    timePoints)] *)
Definition calculateReconstructionError (original reconstructed : list num)
  (timePoints : list num) : ErrorMeasure num :=
  if Nat.eqb (List.length original) (List.length reconstructed) then
    Rms (Math_sqrt (sumSquaredErrorFrom original reconstructed (lit 0)
                    / of_nat (List.length original)))
  else Infinity.

(** ** components/SamplingVisualization.tsx: the data of the plot *)

(** The object that [useMemo] computes; [originalData] and [reconstructedData]
    share the array [continuousTimes]. *)
Record SamplingData : Type := {
  continuousTimes : list num;
  originalValues : list num;
  sampleTimes : list num;
  sampleValues : list num;
  reconstructedValues : list (option num);
  sampleStatus : SamplingStatus
}.

Definition samplingData (fuel : nat) (tStart tEnd samplingRate : num)
  (showReconstruction : bool) : completion SamplingData :=
  let continuousTimes := generateContinuousTimePoints tStart tEnd 500 in
  let originalValues := map (fun t => originalSignal t) continuousTimes in
  match generateSampleTimePoints fuel tStart tEnd samplingRate with
  | Returned sampleTimes =>
      let sampleValues := sampleSignal sampleTimes in
      let reconstructedValues :=
        if showReconstruction then
          map (fun t =>
                 sincReconstruct t sampleTimes sampleValues
                                 (lit 1 / samplingRate))
              continuousTimes
        else [] in
      Returned {| continuousTimes := continuousTimes;
                  originalValues := originalValues;
                  sampleTimes := sampleTimes;
                  sampleValues := sampleValues;
                  reconstructedValues := reconstructedValues;
                  sampleStatus := getSamplingStatus samplingRate |}
  | Thrown e => Thrown e
  | Running => Running
  end.

(** ** components/SignalVisualization.tsx: the scales of the plot *)

(** [Math.max(...signal.map(p => p.index), 1)] *)
Definition maxIndex (signal : list (SignalPoint num)) : num :=
  fold_right Math_max (lit 1) (map (fun p => index p) signal).

(** [const scaleX = (index) => padding + (index / maxIndex) * plotWidth] *)
Definition scaleX (signal : list (SignalPoint num)) (width padding : num)
  (index : num) : num :=
  let plotWidth := width - lit 2 * padding in
  padding + (index / maxIndex signal) * plotWidth.

(** [const scaleY = (value) =>
      padding + plotHeight
      - ((value - minValue) / (maxValue - minValue)) * plotHeight] *)
Definition scaleY (height padding : num) (value : num) : num :=
  let plotHeight := height - lit 2 * padding in
  let minValue := lit (-2) in
  let maxValue := lit 2 in
  padding + plotHeight
  - ((value - minValue) / (maxValue - minValue)) * plotHeight.

End Utilities.

(** The classification as the specification words it: [insufficient] below
    [nyquistRate - epsilon], [nyquist] within [epsilon] of [nyquistRate],
    [adequate] otherwise, with [epsilon = 1]. *)
Definition classifySamplingRate_spec {num : Type} `{JSNumber num} (fs : num)
  : SamplingStatus :=
  let nyquistRate := of_Z 500 in
  let epsilon := of_Z 1 in
  if ltb fs (sub nyquistRate epsilon) then insufficient
  else if ltb (Math_abs (sub fs nyquistRate)) epsilon then nyquist
  else adequate.

(** The bin of a value as the specification words it: the floor of
    [(v - lo) / binWidth], clamped into [0 .. numBins - 1], with
    [binWidth = (hi - lo) / numBins] and the fixed range [lo = -2], [hi = 2]. *)
Definition binIndex_spec (numBins : nat) (v : R) : Z :=
  let lo := (-2)%R in
  let hi := 2%R in
  let binWidth := ((hi - lo) / INR numBins)%R in
  Z.max 0 (Z.min (Z.of_nat numBins - 1) (Zfloor ((v - lo) / binWidth))).

(** The number of samples of a signal whose bin is [i]. *)
Definition samplesInBin (numBins : nat) (signal : list (SignalPoint R)) (i : nat)
  : nat :=
  List.length
    (filter (fun point => (binIndex_spec numBins (value point) =? Z.of_nat i)%Z)
            signal).

(** The sum of an array of exact numbers. *)
Definition sumOf (a : list R) : R := fold_right Rplus 0%R a.

(** The term of a bin of probability [p] in Shannon's formula, with the
    convention that an empty bin adds nothing. *)
Definition shannonTerm (p : R) : R :=
  if Rlt_dec 0 p then (- p * (ln p / ln 2))%R else 0%R.

(** A histogram kept in natural numbers: the count of bin [i] goes one up. *)
Definition bump (tally : list nat) (i : nat) : list nat :=
  array_set tally i (S (nth i tally 0%nat)).

Definition tallyBins (numBins : nat) (bins : list nat) : list nat :=
  fold_left bump bins (repeat 0%nat numBins).

(** A signal with one sample in the middle of each bin. *)
Definition oneSamplePerBin : list (SignalPoint R) :=
  map (fun i => {| index := IZR (i + 1);
                   value := ((2 * IZR i + 1) / 10 - 2)%R |})
      [0; 1; 2; 3; 4; 5; 6; 7; 8; 9; 10; 11; 12; 13; 14; 15; 16; 17; 18; 19]%Z.

(** Signals of binary64 numbers, from their values. *)
Definition signalOf (values : list float) : list (SignalPoint float) :=
  map (fun v => {| index := 0%float; value := v |}) values.

(** The float sum of an array, from left to right. *)
Definition sumOfFloats (a : list float) : float :=
  fold_left PrimFloat.add a 0%float.

(** The float 19, the last bin of a histogram of 20, as a sign, a mantissa
    and an exponent. *)
Definition sf19 : spec_float := S754_finite false 5348024557502464 (-48).

(** Instant [k] of the uniform grid that starts at [start] with period
    [Ts]. *)
Definition instant (start Ts : R) (k : nat) : R := (start + INR k * Ts)%R.

(** The number of bins that hold a sample of the signal. *)
Definition occupiedBins (numBins : nat) (signal : list (SignalPoint R)) : nat :=
  List.length
    (filter (fun i => (0 <? samplesInBin numBins signal i)%nat) (seq 0 numBins)).

(** * Properties *)

Unset Implicit Arguments.

(** Reads the operations of the interfaces at the exact numbers. *)
Ltac exact_arith :=
  cbn [of_Z lit_1e_10 add sub mul div neg ltb leb
       Math_abs Math_floor Math_max Math_min Math_sqrt Math_PI to_index
       Math_log2 Math_sin Math_cos Exact.number Exact.math].

(** ** Classifying a sampling rate *)

Section SamplingStatusFacts.
Local Open Scope R_scope.

(** On exact numbers the two tests of [getSamplingStatus] are the ones of
    the real line. *)
Lemma getSamplingStatus_exact (fs : R) :
  getSamplingStatus fs =
    if Rlt_dec 500 fs then adequate
    else if Rlt_dec (Rabs (fs - 500)) 1 then nyquist
    else insufficient.
Proof.
  unfold getSamplingStatus; cbn.
  destruct (Rlt_dec 500 fs); [reflexivity|].
  destruct (Rlt_dec (Rabs (fs - 500)) 1); reflexivity.
Qed.

Lemma getSamplingStatus_cases (fs : R) :
  (500 < fs /\ getSamplingStatus fs = adequate)
  \/ (499 < fs <= 500 /\ getSamplingStatus fs = nyquist)
  \/ (fs <= 499 /\ getSamplingStatus fs = insufficient).
Proof.
  rewrite getSamplingStatus_exact.
  destruct (Rlt_dec 500 fs) as [Hgt|Hle]; [left; split; [lra|reflexivity]|].
  right.
  destruct (Rlt_dec (Rabs (fs - 500)) 1) as [Hnear|Hfar].
  - left; split; [|reflexivity].
    apply Rabs_def2 in Hnear; lra.
  - right; split; [|reflexivity].
    destruct (Rle_lt_dec fs 499) as [Hlow|Hhigh]; [exact Hlow|].
    exfalso; apply Hfar, Rabs_def1; lra.
Qed.

End SamplingStatusFacts.

(** C6: the rate 500 Hz is classified [nyquist] (the specification's
    at-Nyquist), 600 Hz [adequate] and 300 Hz [insufficient], on binary64
    numbers and on exact numbers alike. *)
Theorem getSamplingStatus_examples :
  (getSamplingStatus 500%float = nyquist
   /\ getSamplingStatus 600%float = adequate
   /\ getSamplingStatus 300%float = insufficient)
  /\ (getSamplingStatus 500%R = nyquist
      /\ getSamplingStatus 600%R = adequate
      /\ getSamplingStatus 300%R = insufficient).
Proof.
  split.
  - repeat split; vm_compute; reflexivity.
  - repeat split.
    + destruct (getSamplingStatus_cases 500) as [[? ?]|[[? ?]|[? ?]]];
        [lra|assumption|lra].
    + destruct (getSamplingStatus_cases 600) as [[? ?]|[[? ?]|[? ?]]];
        [assumption|lra|lra].
    + destruct (getSamplingStatus_cases 300) as [[? ?]|[[? ?]|[? ?]]];
        [lra|lra|assumption].
Qed.

(** C2, as stated, fails: a rate strictly between 500 and 501 Hz is within
    1 Hz of the Nyquist rate, so the specification's rule answers at-Nyquist,
    while the code tests [fs > nyquistRate] first and answers [adequate]; and
    499 Hz, which the rule calls adequate, is [insufficient] in the code. *)
Lemma getSamplingStatus_differs_from_spec :
  (getSamplingStatus 500.5%float = adequate
   /\ classifySamplingRate_spec 500.5%float = nyquist)
  /\ (getSamplingStatus 499%float = insufficient
      /\ classifySamplingRate_spec 499%float = adequate).
Proof.
  repeat split; vm_compute; reflexivity.
Qed.

(** C2, amended: the status is [adequate] exactly for the rates above
    500 Hz, [nyquist] exactly for the rates in (499, 500], and [insufficient]
    exactly for the rates up to 499 Hz; the function is total (a Rocq
    function) and has no failing outcome. *)
Theorem getSamplingStatus_characterised (fs : R) :
  (getSamplingStatus fs = adequate <-> (500 < fs)%R)
  /\ (getSamplingStatus fs = nyquist <-> (499 < fs <= 500)%R)
  /\ (getSamplingStatus fs = insufficient <-> (fs <= 499)%R).
Proof.
  destruct (getSamplingStatus_cases fs) as [[Hr Hs]|[[Hr Hs]|[Hr Hs]]];
    rewrite Hs; repeat split; intros; try discriminate; try lra.
Qed.

(** ** Generating the sample times *)

Section SampleLoopFacts.
Context {num : Type} {number : JSNumber num}.

(** The loop has no [throw]: whatever the numbers are, it returns or keeps
    running. *)
Lemma sampleLoop_not_thrown (fuel : nat) :
  forall (end_ Ts t : num) (points : list num) (e : JSError),
    sampleLoop fuel end_ Ts t points <> Thrown e.
Proof.
  induction fuel as [|fuel IH]; intros end_ Ts t points e; cbn.
  - discriminate.
  - destruct (leb t (add end_ (div Ts (of_Z 2)))).
    + apply IH.
    + discriminate.
Qed.

Lemma generateSampleTimePoints_not_thrown (fuel : nat) (start end_ fs : num)
  (e : JSError) :
  generateSampleTimePoints fuel start end_ fs <> Thrown e.
Proof. apply sampleLoop_not_thrown. Qed.

(** More fuel does not change what a loop that returned has returned. *)
Lemma sampleLoop_fuel_mono (fuel : nat) :
  forall (end_ Ts t : num) (points result : list num),
    sampleLoop fuel end_ Ts t points = Returned result ->
    sampleLoop (S fuel) end_ Ts t points = Returned result.
Proof.
  induction fuel as [|fuel IH]; intros end_ Ts t points result Hret.
  - discriminate.
  - cbn in Hret |- *.
    destruct (leb t (add end_ (div Ts (of_Z 2)))).
    + apply IH in Hret. exact Hret.
    + exact Hret.
Qed.

End SampleLoopFacts.

Section SampleLoopExact.
Local Open Scope R_scope.

(** On exact numbers the loop leaves after at most [n] rounds once [t] is
    within [n] periods of the bound. *)
Lemma sampleLoop_exact_returns (end_ Ts : R) (HTs : 0 < Ts) (n : nat) :
  forall (t : R) (points : list R),
    end_ + Ts / 2 - t < INR n * Ts ->
    exists result, sampleLoop (S n) end_ Ts t points = Returned result.
Proof.
  induction n as [|n IH]; intros t points Hnear.
  - exists points. cbn.
    destruct (Rle_dec t (end_ + Ts / 2)) as [Hle|_]; [|reflexivity].
    cbn in Hnear. lra.
  - change (sampleLoop (S (S n)) end_ Ts t points)
      with (if leb t (add end_ (div Ts (of_Z 2)))
            then sampleLoop (S n) end_ Ts (add t Ts) (points ++ [t])
            else Returned points).
    exact_arith.
    destruct (Rle_dec t (end_ + Ts / 2)) as [Hle|_].
    + apply IH. rewrite S_INR in Hnear. lra.
    + exists points; reflexivity.
Qed.

Lemma generateSampleTimePoints_exact_returns (start end_ fs : R) :
  0 < fs ->
  exists fuel result,
    generateSampleTimePoints fuel start end_ fs = Returned result.
Proof.
  intros Hfs.
  assert (HTs : 0 < 1 / fs) by (apply Rdiv_lt_0_compat; lra).
  set (x := (end_ + 1 / fs / 2 - start) / (1 / fs)).
  destruct (INR_unbounded x) as [n Hn].
  exists (S n).
  apply (sampleLoop_exact_returns end_ (1 / fs) HTs n start []).
  apply Rmult_lt_compat_r with (r := 1 / fs) in Hn; [|exact HTs].
  unfold x in Hn. unfold Rdiv in Hn at 1.
  rewrite Rmult_assoc, Rinv_l, Rmult_1_r in Hn by lra.
  exact Hn.
Qed.

End SampleLoopExact.

(** With the rate 0 the period is [Infinity] in binary64, [t] is [Infinity]
    after one round, and the loop never leaves. *)
Lemma sampleLoop_infinite_period (fuel : nat) :
  forall points : list float,
    sampleLoop fuel 0.01%float infinity infinity points = Running.
Proof.
  induction fuel as [|fuel IH]; intros points; [reflexivity|].
  change (sampleLoop (S fuel) 0.01%float infinity infinity points)
    with (if PrimFloat.leb infinity (0.01 + infinity / 2)%float
          then sampleLoop fuel 0.01%float infinity (infinity + infinity)%float
                 (points ++ [infinity])
          else Returned points).
  change (PrimFloat.leb infinity (0.01 + infinity / 2)%float) with true.
  change (infinity + infinity)%float with infinity.
  apply IH.
Qed.

Lemma generateSampleTimePoints_rate_zero_runs (fuel : nat) :
  generateSampleTimePoints fuel 0%float 0.01%float 0%float = Running.
Proof.
  destruct fuel as [|fuel]; [reflexivity|].
  change (generateSampleTimePoints (S fuel) 0%float 0.01%float 0%float)
    with (if PrimFloat.leb 0 (0.01 + (1 / 0) / 2)%float
          then sampleLoop fuel 0.01%float (1 / 0)%float (0 + 1 / 0)%float
                 ([] ++ [0%float])
          else Returned []).
  change (PrimFloat.leb 0 (0.01 + (1 / 0) / 2)%float) with true.
  change (1 / 0)%float with infinity.
  change (0 + infinity)%float with infinity.
  apply sampleLoop_infinite_period.
Qed.

(** On binary64 numbers a positive rate can leave the loop running too: from
    [2^53] a step of 1 is rounded away, and [t] stays where it is. *)
Lemma sampleLoop_rounded_step (fuel : nat) :
  forall points : list float,
    sampleLoop fuel 9007199254740994%float 1%float 9007199254740992%float
               points
    = Running.
Proof.
  induction fuel as [|fuel IH]; intros points; [reflexivity|].
  change (sampleLoop (S fuel) 9007199254740994%float 1%float
                     9007199254740992%float points)
    with (if PrimFloat.leb 9007199254740992 (9007199254740994 + 1 / 2)%float
          then sampleLoop fuel 9007199254740994%float 1%float
                 (9007199254740992 + 1)%float
                 (points ++ [9007199254740992%float])
          else Returned points).
  change (PrimFloat.leb 9007199254740992 (9007199254740994 + 1 / 2)%float)
    with true.
  change (9007199254740992 + 1)%float with 9007199254740992%float.
  apply IH.
Qed.




(** ** Arrays *)

Section ArrayFacts.
Context {A : Type}.

Lemma array_set_length (a : list A) :
  forall (i : nat) (v : A), List.length (array_set a i v) = List.length a.
Proof.
  induction a as [|x a IH]; intros [|i] v; cbn; try reflexivity.
  now rewrite IH.
Qed.

Lemma array_set_nth_same (a : list A) :
  forall (i : nat) (v d : A),
    (i < List.length a)%nat -> nth i (array_set a i v) d = v.
Proof.
  induction a as [|x a IH]; intros [|i] v d Hi; cbn in *; try lia.
  - reflexivity.
  - apply IH; lia.
Qed.

Lemma array_set_nth_other (a : list A) :
  forall (i j : nat) (v d : A),
    i <> j -> nth i (array_set a j v) d = nth i a d.
Proof.
  induction a as [|x a IH]; intros [|i] [|j] v d Hij; cbn; try reflexivity.
  - congruence.
  - apply IH; congruence.
Qed.

Lemma array_set_map {B : Type} (f : A -> B) (a : list A) :
  forall (i : nat) (v : A),
    map f (array_set a i v) = array_set (map f a) i (f v).
Proof.
  induction a as [|x a IH]; intros [|i] v; cbn; try reflexivity.
  now rewrite IH.
Qed.

End ArrayFacts.

(** ** The histogram in natural numbers *)

Lemma bump_length (tally : list nat) (i : nat) :
  List.length (bump tally i) = List.length tally.
Proof. apply array_set_length. Qed.

Lemma bump_sum (tally : list nat) :
  forall i : nat,
    (i < List.length tally)%nat -> list_sum (bump tally i) = S (list_sum tally).
Proof.
  unfold bump.
  induction tally as [|x tally IH]; intros [|i] Hi; cbn in *; try lia.
  specialize (IH i ltac:(lia)). unfold list_sum in IH. lia.
Qed.

Lemma bump_nth (tally : list nat) (i j : nat) :
  (i < List.length tally)%nat ->
  nth i (bump tally j) 0%nat
  = (nth i tally 0 + if Nat.eqb j i then 1 else 0)%nat.
Proof.
  intros Hi. unfold bump.
  destruct (Nat.eqb_spec j i) as [-> | Hne].
  - rewrite array_set_nth_same by exact Hi. lia.
  - rewrite array_set_nth_other by congruence. lia.
Qed.

Lemma fold_bump_length (bins : list nat) :
  forall tally : list nat,
    List.length (fold_left bump bins tally) = List.length tally.
Proof.
  induction bins as [|b bins IH]; intros tally; cbn; [reflexivity|].
  now rewrite IH, bump_length.
Qed.

Lemma fold_bump_sum (bins : list nat) :
  forall tally : list nat,
    Forall (fun b => (b < List.length tally)%nat) bins ->
    list_sum (fold_left bump bins tally)
    = (list_sum tally + List.length bins)%nat.
Proof.
  induction bins as [|b bins IH]; intros tally Hin.
  - cbn [fold_left]. change (List.length (@nil nat)) with 0%nat. lia.
  - inversion Hin as [|? ? Hb Hrest]; subst.
    cbn [fold_left]. rewrite IH.
    + rewrite bump_sum by exact Hb.
      change (List.length (b :: bins)) with (S (List.length bins)). lia.
    + rewrite bump_length. exact Hrest.
Qed.

Lemma fold_bump_nth (bins : list nat) :
  forall (tally : list nat) (i : nat),
    (i < List.length tally)%nat ->
    nth i (fold_left bump bins tally) 0%nat
    = (nth i tally 0 + List.length (filter (fun b => Nat.eqb b i) bins))%nat.
Proof.
  induction bins as [|b bins IH]; intros tally i Hi; cbn; [lia|].
  rewrite IH by (rewrite bump_length; exact Hi).
  rewrite bump_nth by exact Hi.
  destruct (Nat.eqb b i); cbn; lia.
Qed.

Lemma tallyBins_length (numBins : nat) (bins : list nat) :
  List.length (tallyBins numBins bins) = numBins.
Proof.
  unfold tallyBins. now rewrite fold_bump_length, repeat_length.
Qed.

Lemma list_sum_repeat_zero (n : nat) : list_sum (repeat 0%nat n) = 0%nat.
Proof. induction n as [|n IH]; cbn; [reflexivity|exact IH]. Qed.

Lemma tallyBins_sum (numBins : nat) (bins : list nat) :
  Forall (fun b => (b < numBins)%nat) bins ->
  list_sum (tallyBins numBins bins) = List.length bins.
Proof.
  intros Hin. unfold tallyBins.
  rewrite fold_bump_sum.
  - now rewrite list_sum_repeat_zero.
  - now rewrite repeat_length.
Qed.

Lemma tallyBins_nth (numBins : nat) (bins : list nat) (i : nat) :
  (i < numBins)%nat ->
  nth i (tallyBins numBins bins) 0%nat
  = List.length (filter (fun b => Nat.eqb b i) bins).
Proof.
  intros Hi. unfold tallyBins.
  rewrite fold_bump_nth by (now rewrite repeat_length).
  rewrite nth_repeat. reflexivity.
Qed.

(** ** The histogram on exact numbers *)

Section HistogramExact.
Local Open Scope R_scope.

Lemma Rmin_IZR (a b : Z) : Rmin (IZR a) (IZR b) = IZR (Z.min a b).
Proof.
  unfold Rmin. destruct (Rle_dec (IZR a) (IZR b)) as [Hle|Hgt].
  - apply le_IZR in Hle. now rewrite Z.min_l.
  - rewrite Z.min_r; [reflexivity|].
    destruct (Z.le_gt_cases b a) as [Hba|Hab]; [exact Hba|].
    exfalso; apply Hgt, IZR_le; lia.
Qed.

Lemma Rmax_IZR (a b : Z) : Rmax (IZR a) (IZR b) = IZR (Z.max a b).
Proof.
  unfold Rmax. destruct (Rle_dec (IZR a) (IZR b)) as [Hle|Hgt].
  - apply le_IZR in Hle. now rewrite Z.max_r.
  - rewrite Z.max_l; [reflexivity|].
    destruct (Z.le_gt_cases b a) as [Hba|Hab]; [exact Hba|].
    exfalso; apply Hgt, IZR_le; lia.
Qed.

Lemma sumOf_INR (tally : list nat) :
  sumOf (map INR tally) = INR (list_sum tally).
Proof.
  induction tally as [|c tally IH]; cbn; [reflexivity|].
  unfold sumOf in IH. rewrite IH.
  change (fold_right Init.Nat.add 0%nat tally) with (list_sum tally).
  now rewrite plus_INR.
Qed.

Lemma binIndex_spec_range (numBins : nat) (v : R) :
  (1 <= numBins)%nat ->
  (0 <= binIndex_spec numBins v <= Z.of_nat numBins - 1)%Z.
Proof. intros Hn. unfold binIndex_spec. lia. Qed.

(** [discretizeSignal] computes the bin the specification describes. *)
Lemma discretizeSignal_exact (signal : list (SignalPoint R)) (numBins : nat) :
  discretizeSignal signal numBins
  = map (fun point => IZR (binIndex_spec numBins (value point))) signal.
Proof.
  unfold discretizeSignal. apply map_ext. intros point.
  unfold binIndex_spec, of_nat.
  exact_arith.
  rewrite <- (minus_IZR (Z.of_nat numBins) 1).
  rewrite Rmin_IZR, Rmax_IZR, INR_IZR_INZ.
  reflexivity.
Qed.

Lemma index_IZR (z : Z) :
  (0 <= z < 4294967295)%Z -> Exact.index (IZR z) = Some (Z.to_N z).
Proof.
  intros Hz. unfold Exact.index. rewrite ZfloorZ.
  destruct (Req_dec_T (IZR z) (IZR z)) as [_|Hne]; [|contradiction].
  replace ((0 <=? z)%Z && (z <? 4294967295)%Z) with true; [reflexivity|].
  symmetry; apply andb_true_intro; split;
    [apply Z.leb_le|apply Z.ltb_lt]; lia.
Qed.

(** On dense tallies, [counts[bin]++] with a bin inside the array is [bump]. *)
Lemma array_incr_exact (tally : list nat) (b : nat) :
  (b < List.length tally)%nat ->
  (Z.of_nat (List.length tally) <= 4294967295)%Z ->
  array_incr (map INR tally) (IZR (Z.of_nat b)) = Some (map INR (bump tally b)).
Proof.
  intros Hb Hlen. unfold array_incr.
  exact_arith.
  rewrite index_IZR by lia.
  replace (Z.to_N (Z.of_nat b)) with (N.of_nat b) by lia.
  rewrite length_map.
  replace (N.of_nat b <? N.of_nat (List.length tally))%N with true
    by (symmetry; apply N.ltb_lt; lia).
  cbn zeta. rewrite Nat2N.id.
  replace (nth b (map INR tally) 0) with (INR (nth b tally 0%nat))
    by (symmetry; exact (map_nth INR tally 0%nat b)).
  unfold bump. rewrite array_set_map, S_INR. reflexivity.
Qed.

Lemma fold_array_incr_exact (bins : list nat) :
  forall tally : list nat,
    Forall (fun b => (b < List.length tally)%nat) bins ->
    (Z.of_nat (List.length tally) <= 4294967295)%Z ->
    fold_left (fun counts bin =>
                 match counts with
                 | Some c => array_incr c bin
                 | None => None
                 end)
              (map (fun b => IZR (Z.of_nat b)) bins)
              (Some (map INR tally))
    = Some (map INR (fold_left bump bins tally)).
Proof.
  induction bins as [|b bins IH]; intros tally Hin Hlen; [reflexivity|].
  inversion Hin as [|? ? Hb Hrest]; subst.
  cbn [map fold_left].
  rewrite array_incr_exact by assumption.
  apply IH; rewrite bump_length; assumption.
Qed.

Lemma countBins_exact (bins : list nat) (numBins : nat) :
  Forall (fun b => (b < numBins)%nat) bins ->
  (Z.of_nat numBins <= 4294967295)%Z ->
  countBins (map (fun b => IZR (Z.of_nat b)) bins) numBins
  = Some (map INR (tallyBins numBins bins)).
Proof.
  intros Hin Hlen. unfold countBins, tallyBins.
  replace (repeat (of_Z 0) numBins) with (map INR (repeat 0%nat numBins))
    by (rewrite map_repeat; reflexivity).
  apply fold_array_incr_exact; rewrite repeat_length; assumption.
Qed.

(** The bins of a signal, as natural numbers. *)
Lemma discretizeSignal_bins (signal : list (SignalPoint R)) (numBins : nat) :
  (1 <= numBins)%nat ->
  discretizeSignal signal numBins
  = map (fun b => IZR (Z.of_nat b))
        (map (fun point => Z.to_nat (binIndex_spec numBins (value point)))
             signal)
  /\ Forall (fun b => (b < numBins)%nat)
            (map (fun point => Z.to_nat (binIndex_spec numBins (value point)))
                 signal).
Proof.
  intros Hn. split.
  - rewrite discretizeSignal_exact, map_map. apply map_ext. intros point.
    rewrite Z2Nat.id; [reflexivity|].
    apply (binIndex_spec_range numBins (value point) Hn).
  - apply Forall_forall. intros b Hb.
    apply in_map_iff in Hb. destruct Hb as [point [<- _]].
    pose proof (binIndex_spec_range numBins (value point) Hn). lia.
Qed.

Lemma samplesInBin_filter (signal : list (SignalPoint R)) (numBins i : nat) :
  (1 <= numBins)%nat ->
  List.length
    (filter (fun b => Nat.eqb b i)
            (map (fun point => Z.to_nat (binIndex_spec numBins (value point)))
                 signal))
  = samplesInBin numBins signal i.
Proof.
  intros Hn. unfold samplesInBin.
  induction signal as [|point signal IH]; [reflexivity|].
  cbn [map filter].
  pose proof (binIndex_spec_range numBins (value point) Hn) as Hr.
  replace (Nat.eqb (Z.to_nat (binIndex_spec numBins (value point))) i)
    with (binIndex_spec numBins (value point) =? Z.of_nat i)%Z.
  - destruct (binIndex_spec numBins (value point) =? Z.of_nat i)%Z;
      cbn [List.length]; rewrite IH; reflexivity.
  - destruct (Z.eqb_spec (binIndex_spec numBins (value point)) (Z.of_nat i));
      destruct (Nat.eqb_spec (Z.to_nat (binIndex_spec numBins (value point))) i);
      try reflexivity; lia.
Qed.

(** The counts of a signal: one tally per bin, each the number of samples of
    that bin, and together the number of samples. *)
Lemma countBins_discretizeSignal (signal : list (SignalPoint R))
  (numBins : nat) :
  (1 <= Z.of_nat numBins <= 4294967295)%Z ->
  exists tally : list nat,
    countBins (discretizeSignal signal numBins) numBins = Some (map INR tally)
    /\ List.length tally = numBins
    /\ (forall i, (i < numBins)%nat ->
                  nth i tally 0%nat = samplesInBin numBins signal i)
    /\ list_sum tally = List.length signal.
Proof.
  intros [Hlo' Hhi].
  assert (Hlo : (1 <= numBins)%nat) by lia.
  destruct (discretizeSignal_bins signal numBins Hlo) as [Hbins Hin].
  exists (tallyBins numBins
            (map (fun point => Z.to_nat (binIndex_spec numBins (value point)))
                 signal)).
  repeat split.
  - rewrite Hbins. apply countBins_exact; assumption.
  - apply tallyBins_length.
  - intros i Hi. rewrite tallyBins_nth by exact Hi.
    apply samplesInBin_filter; exact Hlo.
  - rewrite tallyBins_sum by exact Hin. apply length_map.
Qed.

End HistogramExact.

(** ** Shannon's formula on exact numbers *)

Section EntropyExact.
Local Open Scope R_scope.

Lemma ln_2_pos : 0 < ln 2.
Proof. rewrite <- ln_1. apply ln_increasing; lra. Qed.

Lemma Rdiv_nonneg (a b : R) : 0 <= a -> 0 < b -> 0 <= a / b.
Proof.
  intros Ha Hb. unfold Rdiv. apply Rmult_le_pos; [exact Ha|].
  left; apply Rinv_0_lt_compat; exact Hb.
Qed.

Lemma ln_le_minus_1 (y : R) : 0 < y -> ln y <= y - 1.
Proof.
  intros Hy. pose proof (exp_ineq1_le (ln y)) as Hexp.
  rewrite exp_ln in Hexp by exact Hy. lra.
Qed.

Lemma sumOf_map_div {A : Type} (f : A -> R) (d : R) (l : list A) :
  sumOf (map (fun c => f c / d) l) = sumOf (map f l) / d.
Proof.
  unfold sumOf. induction l as [|c l IH]; cbn.
  - lra.
  - rewrite IH. lra.
Qed.

Lemma sumOf_repeat (x : R) (n : nat) : sumOf (repeat x n) = INR n * x.
Proof.
  unfold sumOf. induction n as [|n IH].
  - cbn. lra.
  - cbn [repeat fold_right]. rewrite IH, S_INR. lra.
Qed.

(** The term of one bin against the uniform distribution over [n] bins. *)
Lemma shannonTerm_gibbs (n p : R) :
  0 < n -> 0 <= p ->
  shannonTerm p * ln 2 <= / n - p + p * ln n.
Proof.
  intros Hn Hp. unfold shannonTerm.
  pose proof ln_2_pos as H2.
  destruct (Rlt_dec 0 p) as [Hpos|Hzero].
  - replace (- p * (ln p / ln 2) * ln 2) with (- p * ln p) by (field; lra).
    assert (Hnp : 0 < / (n * p)).
    { apply Rinv_0_lt_compat. apply Rmult_lt_0_compat; assumption. }
    pose proof (ln_le_minus_1 (/ (n * p)) Hnp) as Hle.
    rewrite ln_Rinv in Hle by (apply Rmult_lt_0_compat; assumption).
    rewrite ln_mult in Hle by assumption.
    assert (Heq : p * / (n * p) = / n) by (field; lra).
    apply Rmult_le_compat_l with (r := p) in Hle; [|exact Hp].
    replace (p * (/ (n * p) - 1)) with (p * / (n * p) - p) in Hle by ring.
    rewrite Heq in Hle. lra.
  - assert (Hp0 : p = 0) by lra. subst p.
    assert (0 < / n) by (apply Rinv_0_lt_compat; exact Hn). lra.
Qed.

Lemma sumOf_shannonTerm_gibbs (n : R) (probs : list R) :
  0 < n ->
  Forall (fun p => 0 <= p) probs ->
  sumOf (map shannonTerm probs) * ln 2
  <= INR (List.length probs) * / n - sumOf probs + sumOf probs * ln n.
Proof.
  intros Hn Hall. unfold sumOf.
  induction Hall as [|p probs Hp Hrest IH].
  - cbn. lra.
  - cbn [map fold_right]. change (List.length (p :: probs)) with (S (List.length probs)).
    rewrite S_INR.
    pose proof (shannonTerm_gibbs n p Hn Hp). lra.
Qed.

(** Gibbs' inequality: a distribution over [n] bins has at most the entropy
    [log2 n] of the uniform one. *)
Lemma sumOf_shannonTerm_le_log2 (probs : list R) :
  probs <> [] ->
  Forall (fun p => 0 <= p) probs ->
  sumOf probs = 1 ->
  sumOf (map shannonTerm probs) <= ln (INR (List.length probs)) / ln 2.
Proof.
  intros Hne Hall Hsum.
  assert (Hn : 0 < INR (List.length probs)).
  { apply lt_0_INR. destruct probs; [congruence|cbn; lia]. }
  pose proof (sumOf_shannonTerm_gibbs (INR (List.length probs)) probs Hn Hall)
    as Hg.
  rewrite Hsum in Hg.
  rewrite Rinv_r in Hg by lra.
  pose proof ln_2_pos as H2.
  apply Rmult_le_reg_r with (r := ln 2); [exact H2|].
  replace (ln (INR (List.length probs)) / ln 2 * ln 2)
    with (ln (INR (List.length probs))) by (field; lra).
  lra.
Qed.

(** The loop over the probabilities adds up the terms of Shannon's formula. *)
Lemma fold_addContribution_exact (probs : list R) :
  forall (contributions : list R) (entropy : R),
    snd (fold_left addContribution probs (contributions, entropy))
    = entropy + sumOf (map shannonTerm probs).
Proof.
  unfold sumOf.
  induction probs as [|p probs IH]; intros contributions entropy.
  - cbn. lra.
  - cbn [fold_left map fold_right].
    unfold addContribution at 2.
    exact_arith.
    unfold shannonTerm at 1.
    destruct (Rlt_dec 0 p) as [Hpos|Hzero]; rewrite IH; lra.
Qed.

End EntropyExact.

(** ** The entropy estimate on exact numbers *)

Section CalculateEntropyExact.
Local Open Scope R_scope.

(** The probabilities of a signal are its tallies over its length. *)
Lemma calculateJointProbability_exact (signal : list (SignalPoint R))
  (numBins : nat) :
  (1 <= Z.of_nat numBins <= 4294967295)%Z ->
  exists tally : list nat,
    calculateJointProbability signal numBins
    = Some (map (fun c => INR c / INR (List.length signal)) tally)
    /\ List.length tally = numBins
    /\ (forall i, (i < numBins)%nat ->
                  nth i tally 0%nat = samplesInBin numBins signal i)
    /\ list_sum tally = List.length signal.
Proof.
  intros Hn.
  destruct (countBins_discretizeSignal signal numBins Hn)
    as [tally [Hcounts [Hlen [Hnth Hsum]]]].
  exists tally. repeat split; try assumption.
  unfold calculateJointProbability. rewrite Hcounts.
  rewrite map_map. f_equal. apply map_ext. intros c.
  unfold of_nat. exact_arith.
  rewrite <- INR_IZR_INZ. reflexivity.
Qed.

Lemma probabilities_sum (tally : list nat) (n : nat) :
  (0 < n)%nat -> list_sum tally = n ->
  sumOf (map (fun c => INR c / INR n) tally) = 1.
Proof.
  intros Hn Hsum.
  rewrite (sumOf_map_div INR (INR n) tally), sumOf_INR, Hsum.
  apply Rinv_r. apply not_0_INR. lia.
Qed.

Lemma probabilities_nonneg (tally : list nat) (n : nat) :
  (0 < n)%nat ->
  Forall (fun p => 0 <= p) (map (fun c => INR c / INR n) tally).
Proof.
  intros Hn. apply Forall_forall. intros p Hp.
  apply in_map_iff in Hp. destruct Hp as [c [<- _]].
  apply Rdiv_nonneg; [apply pos_INR|apply lt_0_INR; exact Hn].
Qed.

(** What [calculateEntropy] returns for a signal that is not empty. *)
Lemma calculateEntropy_exact (signal : list (SignalPoint R)) :
  signal <> [] ->
  exists (tally : list nat) (steps : list (DerivationStep R)),
    let probs := map (fun c => INR c / INR (List.length signal)) tally in
    calculateEntropy signal
    = Some {| entropy := Rmax 0 (sumOf (map shannonTerm probs));
              probabilities := probs;
              stepByStep := steps |}
    /\ List.length tally = 20%nat
    /\ (forall i, (i < 20)%nat -> nth i tally 0%nat = samplesInBin 20 signal i)
    /\ list_sum tally = List.length signal.
Proof.
  intros Hne.
  destruct (calculateJointProbability_exact signal 20 ltac:(lia))
    as [tally [Hprobs [Hlen [Hnth Hsum]]]].
  destruct signal as [|point rest]; [congruence|].
  unfold calculateEntropy. rewrite Hprobs.
  set (probs := map (fun c => INR c / INR (List.length (point :: rest))) tally).
  pose proof (fold_addContribution_exact probs [] (of_Z 0)) as Hfold.
  destruct (fold_left addContribution probs ([], of_Z 0))
    as [contributions total] eqn:Hloop.
  cbn [snd of_Z Exact.number] in Hfold.
  rewrite Rplus_0_l in Hfold. subst total.
  eexists tally, _. cbn zeta.
  repeat split; try assumption.
Qed.

End CalculateEntropyExact.

(** C4: for the empty signal [calculateEntropy] returns the entropy 0, an
    empty array of probabilities and an empty list of steps, and fails with
    nothing: on any numbers, binary64 and exact ones included. *)
Theorem calculateEntropy_empty (num : Type) (number : JSNumber num)
  (math : JSMath num) :
  calculateEntropy (@nil (SignalPoint num))
  = Some {| entropy := of_Z 0; probabilities := []; stepByStep := [] |}.
Proof. reflexivity. Qed.

(** C3: for a signal that is not empty, on exact numbers, the probabilities
    that [calculateEntropy] returns add up to 1, hence to 1 within 1e-9, and
    the entropy it returns is at least 0. *)
Theorem calculateEntropy_probabilities_sum (signal : list (SignalPoint R)) :
  signal <> [] ->
  exists result : EntropyResult R,
    calculateEntropy signal = Some result
    /\ sumOf (probabilities result) = 1%R
    /\ (Rabs (sumOf (probabilities result) - 1) <= / 1000000000)%R
    /\ (0 <= entropy result)%R.
Proof.
  intros Hne.
  destruct (calculateEntropy_exact signal Hne)
    as [tally [steps [Hresult [Hlen [Hnth Hsum]]]]].
  cbn zeta in Hresult.
  eexists. split; [exact Hresult|].
  cbn [probabilities entropy].
  assert (Hpos : (0 < List.length signal)%nat).
  { destruct signal; [congruence|cbn; lia]. }
  rewrite (probabilities_sum tally (List.length signal) Hpos Hsum).
  repeat split.
  - rewrite Rminus_diag, Rabs_R0. lra.
  - apply Rmax_l.
Qed.

(** A signal of one sample. *)
Lemma calculateEntropy_probabilities_sum_witness :
  exists result : EntropyResult R,
    calculateEntropy [{| index := 1%R; value := 0%R |}] = Some result
    /\ sumOf (probabilities result) = 1%R
    /\ (Rabs (sumOf (probabilities result) - 1) <= / 1000000000)%R
    /\ (0 <= entropy result)%R.
Proof.
  apply (calculateEntropy_probabilities_sum [{| index := 1%R; value := 0%R |}]).
  discriminate.
Defined.




(** ** A signal spread evenly over the bins *)

Section UniformSignal.
Local Open Scope R_scope.

(** With 20 bins over [-2, 2] the bin of [v] is the integer part of
    [(v + 2) * 5]. *)
Lemma binIndex_spec_20 (v : R) (z : Z) :
  (0 <= z <= 19)%Z ->
  IZR z <= (v + 2) * 5 < IZR z + 1 ->
  binIndex_spec 20 v = z.
Proof.
  intros Hz Hv. unfold binIndex_spec.
  assert (Hscale : (v - -2) / ((2 - -2) / INR 20) = (v + 2) * 5).
  { replace (INR 20) with 20 by (simpl; lra). field. }
  cbn zeta. rewrite Hscale, (Zfloor_eq z _ Hv). cbn. lia.
Qed.

Lemma tally_uniform (tally : list nat) (n k : nat) :
  List.length tally = n ->
  (forall i, (i < n)%nat -> nth i tally 0%nat = k) ->
  tally = repeat k n.
Proof.
  intros Hlen Hnth.
  apply (nth_ext tally (repeat k n) 0%nat 0%nat).
  - now rewrite repeat_length.
  - intros i Hi. rewrite Hlen in Hi.
    rewrite (Hnth i Hi). symmetry. apply nth_repeat_lt. exact Hi.
Qed.

End UniformSignal.


Lemma oneSamplePerBin_bins (z : Z) :
  (0 <= z <= 19)%Z ->
  binIndex_spec 20 ((2 * IZR z + 1) / 10 - 2)%R = z.
Proof.
  intros Hz. apply binIndex_spec_20; [exact Hz|]. lra.
Qed.

Lemma samplesInBin_map (numBins : nat) (signal : list (SignalPoint R))
  (i : nat) :
  samplesInBin numBins signal i
  = List.length
      (filter (fun z => (z =? Z.of_nat i)%Z)
              (map (fun point => binIndex_spec numBins (value point)) signal)).
Proof.
  unfold samplesInBin.
  induction signal as [|point signal IH]; [reflexivity|].
  cbn [map filter].
  destruct (binIndex_spec numBins (value point) =? Z.of_nat i)%Z;
    cbn [List.length]; rewrite IH; reflexivity.
Qed.

Lemma oneSamplePerBin_bin_list :
  map (fun point => binIndex_spec 20 (value point)) oneSamplePerBin
  = [0; 1; 2; 3; 4; 5; 6; 7; 8; 9; 10; 11; 12; 13; 14; 15; 16; 17; 18; 19]%Z.
Proof.
  unfold oneSamplePerBin. rewrite map_map.
  cbn [map value].
  rewrite !oneSamplePerBin_bins by lia.
  reflexivity.
Qed.

Lemma oneSamplePerBin_even (i : nat) :
  (i < 20)%nat -> samplesInBin 20 oneSamplePerBin i = 1%nat.
Proof.
  intros Hi. rewrite samplesInBin_map, oneSamplePerBin_bin_list.
  do 20 (destruct i as [|i]; [reflexivity|]).
  lia.
Qed.


(** ** The sinc function *)

Section SincExact.
Local Open Scope R_scope.

Lemma sinc_exact (x : R) :
  sinc x = if Rlt_dec (Rabs x) (/ 10000000000) then 1
           else sin (PI * x) / (PI * x).
Proof.
  unfold sinc. exact_arith.
  destruct (Rlt_dec (Rabs x) (/ 10000000000)); reflexivity.
Qed.

Lemma sinc_near_zero (x : R) : Rabs x < / 10000000000 -> sinc x = 1.
Proof.
  intros Hx. rewrite sinc_exact.
  destruct (Rlt_dec (Rabs x) (/ 10000000000)); [reflexivity|contradiction].
Qed.

Lemma sinc_away_from_zero (x : R) :
  / 10000000000 <= Rabs x -> sinc x = sin (PI * x) / (PI * x).
Proof.
  intros Hx. rewrite sinc_exact.
  destruct (Rlt_dec (Rabs x) (/ 10000000000)); [lra|reflexivity].
Qed.

Lemma sinc_zero : sinc 0 = 1.
Proof. apply sinc_near_zero. rewrite Rabs_R0. lra. Qed.

Lemma sinc_integer (n : Z) : n <> 0%Z -> sinc (IZR n) = 0.
Proof.
  intros Hn. rewrite sinc_away_from_zero.
  - rewrite (sin_eq_0_1 (PI * IZR n)).
    + unfold Rdiv. apply Rmult_0_l.
    + exists n. apply Rmult_comm.
  - rewrite <- abs_IZR.
    assert (H1 : (1 <= Z.abs n)%Z) by lia.
    apply IZR_le in H1. lra.
Qed.

(** Inside the guard the quotient is below 1, for [sin y < y] when [0 < y]. *)
Lemma sin_quotient_below_1 (x : R) : 0 < x -> sin (PI * x) / (PI * x) < 1.
Proof.
  intros Hx.
  assert (Hy : 0 < PI * x) by (apply Rmult_lt_0_compat; [apply PI_RGT_0|exact Hx]).
  pose proof (sin_lt_x (PI * x) Hy) as Hsin.
  apply Rmult_lt_reg_r with (r := PI * x); [exact Hy|].
  unfold Rdiv. rewrite Rmult_assoc, Rinv_l by lra. lra.
Qed.

End SincExact.

(** Inside the guard the value 1 and the quotient are closer than 3e-20, far
    below the spacing 2^-53 of binary64 numbers next to 1. *)
Section SincGuard.
Local Open Scope R_scope.

Lemma sin_cubic_lower (a : R) : 0 <= a <= PI -> a - a * a * a / 6 <= sin a.
Proof.
  intros [H0 H1].
  destruct (sin_bound a 0 H0 H1) as [Hlb _].
  unfold sin_approx, sin_term in Hlb. simpl in Hlb. lra.
Qed.

Lemma sin_quotient_near_1 (y : R) :
  0 < y <= 1 -> 0 <= 1 - sin y / y <= y * y / 6.
Proof.
  intros [H0 H1].
  assert (HPI : y <= PI) by (pose proof PI2_3_2; lra).
  pose proof (sin_cubic_lower y ltac:(lra)) as Hlow.
  pose proof (sin_lt_x y H0) as Hup.
  assert (Hinv : 0 < / y) by (apply Rinv_0_lt_compat; exact H0).
  assert (Hunit : y * / y = 1) by (apply Rinv_r; lra).
  unfold Rdiv at 1 3. split.
  - assert (sin y * / y <= y * / y) by (apply Rmult_le_compat_r; lra). lra.
  - assert (Hscaled : (y - y * y * y / 6) * / y <= sin y * / y)
      by (apply Rmult_le_compat_r; lra).
    replace ((y - y * y * y / 6) * / y)
      with (y * / y - y * y / 6 * (y * / y)) in Hscaled by (field; lra).
    rewrite Hunit in Hscaled. lra.
Qed.

Lemma sinc_guard_close (x : R) :
  x <> 0 -> Rabs x < / 10000000000 ->
  Rabs (sinc x - sin (PI * x) / (PI * x)) < 3 / 100000000000000000000.
Proof.
  intros Hx Hnear.
  rewrite (sinc_near_zero x Hnear).
  assert (Heven : sin (PI * x) / (PI * x)
                  = sin (PI * Rabs x) / (PI * Rabs x)).
  { unfold Rabs. destruct (Rcase_abs x) as [Hneg|Hpos]; [|reflexivity].
    replace (PI * - x) with (- (PI * x)) by ring.
    rewrite sin_neg. field. split; [lra|apply PI_neq0]. }
  rewrite Heven.
  assert (Hpos : 0 < Rabs x) by (apply Rabs_pos_lt; exact Hx).
  pose proof PI_RGT_0 as Hpi0. pose proof PI_4 as Hpi4.
  assert (Hsmall : PI * Rabs x <= 4 * / 10000000000).
  { apply Rmult_le_compat; lra. }
  assert (Hy : 0 < PI * Rabs x <= 1).
  { split; [apply Rmult_lt_0_compat; assumption|lra]. }
  destruct (sin_quotient_near_1 (PI * Rabs x) Hy) as [Hlo Hhi].
  rewrite Rabs_pos_eq by exact Hlo.
  assert (Hsq : PI * Rabs x * (PI * Rabs x)
                <= 4 * / 10000000000 * (4 * / 10000000000)).
  { apply Rmult_le_compat; lra. }
  lra.
Qed.

End SincGuard.

(** On binary64 numbers the guard answers before [Math.sin] is called. *)
Lemma sinc_binary64_guard (math : JSMath float) :
  sinc 0%float = 1%float /\ sinc 5e-11%float = 1%float.
Proof. split; reflexivity. Qed.




(** ** The order of binary64 numbers *)

Lemma digits2_pos_bound (p : positive) :
  (Zpos p < 2 ^ Zpos (digits2_pos p))%Z.
Proof.
  induction p as [p IH|p IH|]; cbn [digits2_pos].
  - rewrite Pos2Z.inj_succ, Z.pow_succ_r by lia. lia.
  - rewrite Pos2Z.inj_succ, Z.pow_succ_r by lia. lia.
  - reflexivity.
Qed.

Lemma valid_mantissa_bound (s : bool) (m : positive) (e : Z) :
  valid_binary (S754_finite s m e) = true -> (Zpos m < 2 ^ 53)%Z.
Proof.
  cbn [valid_binary].
  unfold SpecFloat.bounded, SpecFloat.canonical_mantissa, SpecFloat.fexp.
  intros Hvalid. apply andb_prop in Hvalid. destruct Hvalid as [Hcanon _].
  apply Z.eqb_eq in Hcanon.
  pose proof (digits2_pos_bound m) as Hdigits.
  assert (Hle : (Zpos (digits2_pos m) <= 53)%Z)
    by (unfold FloatOps.prec in Hcanon; lia).
  apply Z.lt_le_trans with (1 := Hdigits).
  apply Z.pow_le_mono_r; lia.
Qed.

Lemma is_nan_spec (x : float) :
  PrimFloat.is_nan x = match Prim2SF x with S754_nan => true | _ => false end.
Proof.
  unfold PrimFloat.is_nan. rewrite eqb_spec. unfold SFeqb, SFcompare.
  destruct (Prim2SF x) as [s|s| |s m e]; try reflexivity.
  - destruct s; reflexivity.
  - destruct s; rewrite Z.compare_refl, Pos.compare_cont_refl; reflexivity.
Qed.

Lemma Prim2SF_19 : Prim2SF 19%float = sf19.
Proof. reflexivity. Qed.

Lemma Prim2SF_0 : Prim2SF 0%float = S754_zero false.
Proof. reflexivity. Qed.

Lemma shiftr_below_20 (m : positive) (e : Z) :
  (Zpos m < 9007199254740992)%Z ->
  (e < -48 \/ (e = -48 /\ Zpos m <= 5348024557502464))%Z ->
  (Z.shiftr (Zpos m) (- e) < 20)%Z.
Proof.
  intros Hm He.
  rewrite Z.shiftr_div_pow2 by lia.
  assert (Hpow : (0 < 2 ^ (- e))%Z) by (apply Z.pow_pos_nonneg; lia).
  apply Z.div_lt_upper_bound; [exact Hpow|].
  destruct He as [He|[-> Hm19]].
  - assert (Hbig : (2 ^ 49 <= 2 ^ (- e))%Z) by (apply Z.pow_le_mono_r; lia).
    change (2 ^ 49)%Z with 562949953421312%Z in Hbig.
    generalize dependent (2 ^ (- e))%Z. intros. lia.
  - change (2 ^ (- -48))%Z with 281474976710656%Z. lia.
Qed.

(** The order of two positive finite floats, read off their exponents and
    mantissas. *)
Lemma SFleb_finite_inv (m q : positive) (e k : Z) :
  SFleb (S754_finite false m e) (S754_finite false q k) = true ->
  (e < k \/ (e = k /\ Zpos m <= Zpos q))%Z.
Proof.
  unfold SFleb, SFcompare. intros Hle.
  rewrite Pos.compare_cont_spec in Hle.
  destruct (Z.compare_spec e k) as [He|He|He].
  - right. split; [exact He|].
    apply Pos2Z.pos_le_pos, Pos.compare_le_iff.
    intros Hgt. rewrite Hgt in Hle. discriminate.
  - left. exact He.
  - discriminate.
Qed.

Lemma SFleb_finite_total (m q : positive) (e k : Z) :
  SFltb (S754_finite false q k) (S754_finite false m e) = false ->
  SFltb (S754_finite false m e) (S754_finite false q k) = false ->
  SFleb (S754_finite false m e) (S754_finite false q k) = true.
Proof.
  unfold SFltb, SFleb, SFcompare. intros Habove Hbelow.
  rewrite (Z.compare_antisym e k) in Habove.
  rewrite Pos.compare_cont_spec in Habove, Hbelow |- *.
  rewrite (Pos.compare_antisym m q) in Habove.
  destruct (e ?= k)%Z; cbn in *; try discriminate.
  destruct (m ?= q)%positive; cbn in *; try discriminate; reflexivity.
Qed.

(** A float at most 19 that names an array element names one of the first 20. *)
Lemma index_at_most_19 (r : float) (i : N) :
  PrimFloat.leb r 19%float = true -> Binary64.index r = Some i -> (i < 20)%N.
Proof.
  intros Hle Hidx.
  rewrite leb_spec, Prim2SF_19 in Hle.
  unfold Binary64.index in Hidx.
  pose proof (Prim2SF_valid r) as Hvalid.
  destruct (Prim2SF r) as [s|s| |s m e]; try discriminate.
  - injection Hidx as <-. lia.
  - destruct s; [discriminate|].
    apply valid_mantissa_bound in Hvalid.
    change (2 ^ 53)%Z with 9007199254740992%Z in Hvalid.
    apply SFleb_finite_inv in Hle.
    pose proof (shiftr_below_20 m e Hvalid Hle) as Hz.
    assert (Hneg : (e < 0)%Z) by (clear - Hle; lia).
    replace (0 <=? e)%Z with false in Hidx by (symmetry; apply Z.leb_gt; exact Hneg).
    cbn [orb] in Hidx.
    destruct ((Z.shiftl (Z.shiftr (Z.pos m) (- e)) (- e) =? Z.pos m)%Z
              && (Z.shiftr (Z.pos m) (- e) <? 4294967295)%Z); [|discriminate].
    injection Hidx as <-.
    assert (Hpos : (0 <= Z.shiftr (Zpos m) (- e))%Z)
      by (apply Z.shiftr_nonneg; lia).
    clear - Hz Hpos. lia.
Qed.

Lemma ltb_leb (x y : float) :
  PrimFloat.ltb x y = true -> PrimFloat.leb x y = true.
Proof.
  rewrite ltb_spec, leb_spec. unfold SFltb, SFleb.
  destruct (SFcompare (Prim2SF x) (Prim2SF y)) as [[| |]|]; congruence.
Qed.

Lemma leb_not_nan (x y : float) :
  PrimFloat.leb x y = true -> PrimFloat.is_nan x = false.
Proof.
  rewrite leb_spec, is_nan_spec. unfold SFleb, SFcompare.
  destruct (Prim2SF x); try reflexivity. discriminate.
Qed.

(** [Math.min(19, y)] is NaN or at most 19. *)
Lemma min_19_at_most (y : float) :
  PrimFloat.is_nan (Binary64.min 19 y) = true
  \/ PrimFloat.leb (Binary64.min 19 y) 19 = true.
Proof.
  unfold Binary64.min.
  change (PrimFloat.is_nan 19) with false. cbn [orb].
  destruct (PrimFloat.is_nan y) eqn:Hnan; [left; reflexivity|].
  destruct (PrimFloat.ltb 19 y) eqn:Habove; [right; reflexivity|].
  destruct (PrimFloat.ltb y 19) eqn:Hbelow; [right; apply ltb_leb; exact Hbelow|].
  change (PrimFloat.get_sign 19) with false. cbn iota.
  right.
  rewrite is_nan_spec in Hnan.
  rewrite ltb_spec, Prim2SF_19 in Habove, Hbelow.
  rewrite leb_spec, Prim2SF_19.
  destruct (Prim2SF y) as [s|s| |s m e]; try discriminate.
  - destruct s; discriminate.
  - destruct s; [discriminate|].
    apply SFleb_finite_total; assumption.
Qed.

(** [Math.max(0, m)] is at most 19 when [m] is. *)
Lemma max_0_at_most (m : float) :
  PrimFloat.leb m 19 = true ->
  PrimFloat.leb (Binary64.max 0 m) 19 = true.
Proof.
  intros Hle. unfold Binary64.max.
  change (PrimFloat.is_nan 0) with false. cbn [orb].
  rewrite (leb_not_nan m 19 Hle).
  destruct (PrimFloat.ltb 0 m); [exact Hle|].
  destruct (PrimFloat.ltb m 0); reflexivity.
Qed.

(** The clamped bin names no element beyond the twentieth. *)
Lemma clamped_index (y : float) (i : N) :
  Binary64.index (Binary64.max 0 (Binary64.min 19 y)) = Some i -> (i < 20)%N.
Proof.
  destruct (min_19_at_most y) as [Hnan|Hle].
  - unfold Binary64.max at 1.
    change (PrimFloat.is_nan 0) with false. cbn [orb]. rewrite Hnan.
    discriminate.
  - apply index_at_most_19. apply max_0_at_most. exact Hle.
Qed.

(** ** The engine on binary64 numbers *)

(** Every bin of [discretizeSignal] with 20 bins is the clamp of a float. *)
Lemma discretizeSignal_binary64_clamped (signal : list (SignalPoint float)) :
  Forall (fun bin => forall i, Binary64.index bin = Some i -> (i < 20)%N)
         (discretizeSignal signal 20).
Proof.
  unfold discretizeSignal. apply Forall_forall. intros bin Hbin.
  apply in_map_iff in Hbin. destruct Hbin as [point [<- _]].
  intros i.
  change (sub (of_nat 20) (of_Z 1)) with 19%float.
  change (of_Z 0) with 0%float.
  apply clamped_index.
Qed.

Lemma array_incr_binary64 (counts : list float) (bin : float) :
  (forall i, Binary64.index bin = Some i -> (i < 20)%N) ->
  List.length counts = 20%nat ->
  exists counts', array_incr counts bin = Some counts'
                  /\ List.length counts' = 20%nat.
Proof.
  intros Hbin Hlen. unfold array_incr.
  change (to_index bin) with (Binary64.index bin).
  destruct (Binary64.index bin) as [i|] eqn:Hidx.
  - specialize (Hbin i eq_refl). rewrite Hlen.
    replace (i <? N.of_nat 20)%N with true by (symmetry; apply N.ltb_lt; lia).
    eexists. split; [reflexivity|].
    cbn zeta. now rewrite array_set_length.
  - exists counts. split; [reflexivity|exact Hlen].
Qed.

Lemma fold_array_incr_binary64 (bins : list float) :
  Forall (fun bin => forall i, Binary64.index bin = Some i -> (i < 20)%N) bins ->
  forall counts : list float,
    List.length counts = 20%nat ->
    exists counts',
      fold_left (fun counts bin =>
                   match counts with
                   | Some c => array_incr c bin
                   | None => None
                   end)
                bins (Some counts)
      = Some counts'
      /\ List.length counts' = 20%nat.
Proof.
  induction 1 as [|bin bins Hbin _ IH]; intros counts Hlen.
  - exists counts. split; [reflexivity|exact Hlen].
  - destruct (array_incr_binary64 counts bin Hbin Hlen) as [next [Hnext Hlen']].
    cbn [fold_left]. rewrite Hnext. apply IH. exact Hlen'.
Qed.

(** On binary64 numbers, whatever the samples are, the histogram keeps its 20
    elements and [calculateEntropy] returns a result. *)
Lemma calculateEntropy_binary64_total (math : JSMath float)
  (signal : list (SignalPoint float)) :
  exists result : EntropyResult float,
    calculateEntropy signal = Some result
    /\ (signal <> [] -> List.length (probabilities result) = 20%nat).
Proof.
  destruct signal as [|point rest].
  - eexists. split; [reflexivity|]. congruence.
  - destruct (fold_array_incr_binary64
                (discretizeSignal (point :: rest) 20)
                (discretizeSignal_binary64_clamped (point :: rest))
                (repeat (of_Z 0) 20) (repeat_length _ _))
      as [counts [Hcounts Hlen]].
    unfold calculateEntropy, calculateJointProbability, countBins.
    rewrite Hcounts.
    destruct (fold_left addContribution _ _) as [contributions total].
    eexists. split; [reflexivity|].
    intros _. cbn [probabilities]. now rewrite length_map.
Qed.

(** [Math.max(0, e)] is never below 0, whatever [e] is. *)
Lemma max_zero_not_negative (e : float) :
  PrimFloat.ltb (Binary64.max 0%float e) 0%float = false.
Proof.
  unfold Binary64.max.
  destruct (PrimFloat.is_nan 0 || PrimFloat.is_nan e)%bool; [reflexivity|].
  destruct (PrimFloat.ltb 0 e) eqn:Hpos.
  - rewrite ltb_spec in Hpos |- *.
    change (Prim2SF 0%float) with (S754_zero false) in *.
    destruct (Prim2SF e) as [s|s| |s m x]; cbn in *; try discriminate;
      destruct s; try discriminate; reflexivity.
  - destruct (PrimFloat.ltb e 0); reflexivity.
Qed.

(** The entropy that [calculateEntropy] returns is never negative on binary64
    numbers, whatever [Math.log2] returns. *)
Lemma calculateEntropy_binary64_not_negative (math : JSMath float)
  (signal : list (SignalPoint float)) (result : EntropyResult float) :
  calculateEntropy signal = Some result ->
  PrimFloat.ltb (entropy result) 0%float = false.
Proof.
  destruct signal as [|point rest]; cbn [calculateEntropy].
  - intros [= <-]. reflexivity.
  - destruct (calculateJointProbability (point :: rest) 20) as [probs|];
      [|discriminate].
    destruct (fold_left addContribution probs ([], of_Z 0))
      as [contributions total].
    intros [= <-]. apply max_zero_not_negative.
Qed.

(** Twenty samples at the middles of the bins fall one per bin, and each bin
    gets the probability 0.05; the float sum of the probabilities is within
    1e-9 of 1. *)
Lemma calculateJointProbability_binary64_uniform :
  let signal :=
    signalOf [-1.9; -1.7; -1.5; -1.3; -1.1; -0.9; -0.7; -0.5; -0.3; -0.1;
              0.1; 0.3; 0.5; 0.7; 0.9; 1.1; 1.3; 1.5; 1.7; 1.9]%float in
  discretizeSignal signal 20
  = [0; 1; 2; 3; 4; 5; 6; 7; 8; 9; 10; 11; 12; 13; 14; 15; 16; 17; 18; 19]%float
  /\ calculateJointProbability signal 20 = Some (repeat 0.05%float 20)
  /\ PrimFloat.ltb (abs (sumOfFloats (repeat 0.05%float 20) - 1)) 1e-9 = true.
Proof. repeat split; vm_compute; reflexivity. Qed.

(** A sample that is NaN is no real value: it is counted in no bin. *)
Lemma calculateJointProbability_binary64_nan :
  calculateJointProbability (signalOf [0.5; nan]%float) 20
  = Some ([0; 0; 0; 0; 0; 0; 0; 0; 0; 0; 0; 0]
          ++ [0.5] ++ [0; 0; 0; 0; 0; 0; 0])%float.
Proof. vm_compute. reflexivity. Qed.

(** * Further properties

    The rest of the two utility modules, their callers in the components and
    pages, and sharper facts about the engine. *)

(** ** Generating a signal *)

Section GenerateSignalFacts.
Context {num : Type} {number : JSNumber num} {math : JSMath num}.

(** The sample that round [i] of [generateSignal] pushes. *)
Lemma signalLoop_rounds (random : nat -> num) (N : nat) (noiseVariance : num)
  (count : nat) :
  forall (i : nat) (signal : list (SignalPoint num)),
    signalLoop random N noiseVariance count i signal
    = signal ++ signalLoop random N noiseVariance count i [].
Proof.
  induction count as [|count IH]; intros i signal.
  - cbn. now rewrite app_nil_r.
  - cbn [signalLoop]. rewrite IH. rewrite (IH (S i) ([] ++ _)).
    rewrite <- app_assoc. reflexivity.
Qed.

Lemma signalLoop_length (random : nat -> num) (N : nat) (noiseVariance : num)
  (count : nat) :
  forall i : nat,
    List.length (signalLoop random N noiseVariance count i []) = count.
Proof.
  induction count as [|count IH]; intros i; [reflexivity|].
  cbn [signalLoop]. rewrite signalLoop_rounds, length_app, IH. reflexivity.
Qed.

Lemma signalLoop_nth (random : nat -> num) (N : nat) (noiseVariance : num)
  (count : nat) :
  forall (i k : nat) (point : SignalPoint num),
    nth_error (signalLoop random N noiseVariance count i []) k = Some point ->
    index point = of_nat (i + k)
    /\ value point
       = Math_max (of_Z (-2))
           (Math_min (of_Z 2)
              (add (mul (Math_sin (mul (mul (div (of_nat (i + k)) (of_nat N))
                                            (of_Z 2))
                                       Math_PI))
                        lit_0_5)
                   (mul (mul (sub (random (i + k)%nat) lit_0_5) (of_Z 2))
                        (Math_sqrt noiseVariance)))).
Proof.
  induction count as [|count IH]; intros i k point Hnth.
  - destruct k; discriminate.
  - cbn [signalLoop] in Hnth. rewrite signalLoop_rounds in Hnth.
    destruct k as [|k].
    + cbn in Hnth. injection Hnth as <-. cbn [index value].
      rewrite Nat.add_0_r. split; reflexivity.
    + cbn [app nth_error] in Hnth.
      apply IH in Hnth. rewrite Nat.add_succ_r. exact Hnth.
Qed.

End GenerateSignalFacts.


(** ** The test signal *)

Section OriginalSignalExact.
Local Open Scope R_scope.

Lemma originalSignal_exact (t : R) :
  originalSignal t
  = cos (2 * PI * 50 * t) + sin (2 * PI * 100 * t)
    + cos (2 * PI * 250 * t + PI / 4) + 7.
Proof. reflexivity. Qed.

(** X2: on exact numbers the test signal stays between 4 and 10: three
    sinusoids of amplitude 1 around the offset 7, so a sample is never zero
    or negative. *)
Theorem originalSignal_bounds (t : R) : 4 <= originalSignal t <= 10.
Proof.
  rewrite originalSignal_exact.
  pose proof (COS_bound (2 * PI * 50 * t)) as [H1 H1'].
  pose proof (SIN_bound (2 * PI * 100 * t)) as [H2 H2'].
  pose proof (COS_bound (2 * PI * 250 * t + PI / 4)) as [H3 H3'].
  lra.
Qed.

(** X3: on exact numbers the test signal repeats every 1/50 of a second, the
    period of its lowest component, so the plotted window of 0.02 s is one
    period. *)
Theorem originalSignal_periodic (t : R) :
  originalSignal (t + / 50) = originalSignal t.
Proof.
  rewrite !originalSignal_exact.
  replace (2 * PI * 50 * (t + / 50)) with (2 * PI * 50 * t + 2 * INR 1 * PI)
    by (cbn [INR]; field).
  replace (2 * PI * 100 * (t + / 50)) with (2 * PI * 100 * t + 2 * INR 2 * PI)
    by (cbn [INR]; field).
  replace (2 * PI * 250 * (t + / 50) + PI / 4)
    with (2 * PI * 250 * t + PI / 4 + 2 * INR 5 * PI)
    by (cbn [INR]; field).
  rewrite !cos_period, sin_period. reflexivity.
Qed.

End OriginalSignalExact.

(** ** The interpolation kernel *)

Section SincShape.
Local Open Scope R_scope.

Lemma sin_abs_le (y : R) : Rabs (sin y) <= Rabs y.
Proof.
  assert (Hpos : forall z, 0 < z -> Rabs (sin z) <= z).
  { intros z Hz. apply Rabs_le. split.
    - destruct (Rlt_dec z 1) as [Hlt|Hge].
      + assert (0 < sin z); [|lra].
        apply sin_gt_0; [lra|]. pose proof PI_4 as HPI. pose proof PI_RGT_0. 
        pose proof PI2_1. lra.
      + pose proof (SIN_bound z) as [Hlow _]. lra.
    - left. apply sin_lt_x. exact Hz. }
  destruct (Rtotal_order y 0) as [Hneg | [-> | Hpos']].
  - rewrite <- (Rabs_Ropp (sin y)), <- sin_neg, <- (Rabs_Ropp y).
    rewrite (Rabs_pos_eq (- y)) by lra. apply Hpos. lra.
  - rewrite sin_0. lra.
  - rewrite (Rabs_pos_eq y) by lra. now apply Hpos.
Qed.

(** X4: on exact numbers [sinc] is an even function and never exceeds 1 in
    absolute value, on both sides of its guard. *)
Theorem sinc_even_and_bounded (x : R) :
  sinc (- x) = sinc x /\ Rabs (sinc x) <= 1.
Proof.
  split.
  - rewrite !sinc_exact, Rabs_Ropp.
    destruct (Rlt_dec (Rabs x) (/ 10000000000)) as [Hnear|Haway];
      [reflexivity|].
    assert (Hx : x <> 0).
    { intros ->. apply Haway. rewrite Rabs_R0. lra. }
    replace (PI * - x) with (- (PI * x)) by ring.
    rewrite sin_neg. field. split; [exact Hx|apply PI_neq0].
  - rewrite sinc_exact.
    destruct (Rlt_dec (Rabs x) (/ 10000000000)) as [Hnear|Haway].
    + rewrite Rabs_R1. lra.
    + assert (Hx : x <> 0).
      { intros ->. apply Haway. rewrite Rabs_R0. lra. }
      assert (Hy : PI * x <> 0).
      { apply Rmult_integral_contrapositive_currified;
          [apply PI_neq0|exact Hx]. }
      unfold Rdiv. rewrite Rabs_mult, Rabs_inv.
      apply Rmult_le_reg_r with (r := Rabs (PI * x)).
      { now apply Rabs_pos_lt. }
      rewrite Rmult_assoc, Rinv_l, Rmult_1_r, Rmult_1_l
        by (now apply Rabs_no_R0).
      apply sin_abs_le.
Qed.

End SincShape.

(** ** Time points of the continuous curve *)

Section ContinuousLoopFacts.
Context {num : Type} {number : JSNumber num}.

Lemma continuousLoop_rounds (start step : num) (count : nat) :
  forall (i : nat) (points : list num),
    continuousLoop start step count i points
    = points ++ map (fun k => add start (mul (of_nat k) step)) (seq i count).
Proof.
  induction count as [|count IH]; intros i points.
  - cbn. now rewrite app_nil_r.
  - cbn [continuousLoop seq map]. rewrite IH, <- app_assoc. reflexivity.
Qed.

Lemma generateContinuousTimePoints_rounds (start end_ : num) (numPoints : nat) :
  generateContinuousTimePoints start end_ numPoints
  = map (fun k => add start
                    (mul (of_nat k)
                         (div (sub end_ start)
                              (sub (of_nat numPoints) (of_Z 1)))))
        (seq 0 numPoints).
Proof.
  unfold generateContinuousTimePoints. now rewrite continuousLoop_rounds.
Qed.

End ContinuousLoopFacts.

Section ContinuousPointsExact.
Local Open Scope R_scope.

(** X5: on exact numbers and for at least two points,
    [generateContinuousTimePoints] returns [numPoints] evenly spaced points:
    point [k] is [start + k * (end - start) / (numPoints - 1)], the first
    one is [start] and the last one is [end]. *)
Theorem generateContinuousTimePoints_grid (start end_ : R) (numPoints : nat) :
  (2 <= numPoints)%nat ->
  List.length (generateContinuousTimePoints start end_ numPoints) = numPoints
  /\ (forall k : nat,
        (k < numPoints)%nat ->
        nth k (generateContinuousTimePoints start end_ numPoints) 0
        = start + INR k * ((end_ - start) / (INR numPoints - 1)))
  /\ nth 0 (generateContinuousTimePoints start end_ numPoints) 0 = start
  /\ nth (numPoints - 1) (generateContinuousTimePoints start end_ numPoints) 0
     = end_.
Proof.
  intros Hpoints.
  rewrite generateContinuousTimePoints_rounds.
  assert (Hnth : forall k : nat,
             (k < numPoints)%nat ->
             nth k (map (fun k => add start
                                    (mul (of_nat k)
                                         (div (sub end_ start)
                                              (sub (of_nat numPoints) (of_Z 1)))))
                        (seq 0 numPoints)) 0
             = start + INR k * ((end_ - start) / (INR numPoints - 1))).
  { intros k Hk.
    rewrite nth_indep with (d' := add start
                                    (mul (of_nat 0)
                                         (div (sub end_ start)
                                              (sub (of_nat numPoints) (of_Z 1)))))
      by (now rewrite length_map, length_seq).
    rewrite (map_nth (fun k => add start
                                 (mul (of_nat k)
                                      (div (sub end_ start)
                                           (sub (of_nat numPoints) (of_Z 1)))))).
    rewrite seq_nth by exact Hk. unfold of_nat. exact_arith.
    rewrite <- !INR_IZR_INZ. reflexivity. }
  assert (Hlast : INR (numPoints - 1) = INR numPoints - 1).
  { rewrite minus_INR by lia. reflexivity. }
  assert (Hden : INR numPoints - 1 <> 0).
  { apply le_INR in Hpoints. cbn [INR] in Hpoints. lra. }
  split; [now rewrite length_map, length_seq|].
  split; [exact Hnth|].
  split.
  - rewrite Hnth by lia. cbn [INR]. lra.
  - rewrite Hnth by lia. rewrite Hlast. field. exact Hden.
Qed.

Lemma generateContinuousTimePoints_grid_witness :
  List.length (generateContinuousTimePoints 0 1 3) = 3%nat
  /\ (forall k : nat,
        (k < 3)%nat ->
        nth k (generateContinuousTimePoints 0 1 3) 0
        = 0 + INR k * ((1 - 0) / (INR 3 - 1)))
  /\ nth 0 (generateContinuousTimePoints 0 1 3) 0 = 0
  /\ nth (3 - 1) (generateContinuousTimePoints 0 1 3) 0 = 1.
Proof.
  apply (generateContinuousTimePoints_grid 0 1 3). lia.
Defined.

End ContinuousPointsExact.

(** A float whose class is NaN is the float [nan]. *)
Lemma Prim2SF_nan (x : float) : Prim2SF x = S754_nan -> x = nan.
Proof.
  intros Hx. rewrite <- (SF2Prim_Prim2SF x), Hx. reflexivity.
Qed.

(** X6: in binary64, asking [generateContinuousTimePoints] for one point divides
    by zero: the step is NaN or an infinity, and the only point is NaN,
    whatever [start] and [end] are. *)
Theorem generateContinuousTimePoints_single_point (start end_ : float) :
  generateContinuousTimePoints start end_ 1 = [nan].
Proof.
  change (generateContinuousTimePoints start end_ 1)
    with [PrimFloat.add start
            (PrimFloat.mul 0 (PrimFloat.div (PrimFloat.sub end_ start) 0))].
  f_equal. apply Prim2SF_nan.
  rewrite add_spec, mul_spec, div_spec.
  change (Prim2SF 0) with (S754_zero false).
  destruct (Prim2SF (PrimFloat.sub end_ start)) as [s | s | | s m e];
    destruct (Prim2SF start) as [s' | s' | | s' m' e']; reflexivity.
Qed.

(** ** The sampling instants *)

Section SampleGridExact.
Local Open Scope R_scope.

(** The instants [t], [t + Ts], ..., the first [n] of them. *)
Lemma sampleLoop_grid (end_ Ts : R) (n : nat) :
  forall (fuel : nat) (t : R) (points : list R),
    (n < fuel)%nat ->
    (forall k : nat, (k < n)%nat -> instant t Ts k <= end_ + Ts / 2) ->
    end_ + Ts / 2 < instant t Ts n ->
    sampleLoop fuel end_ Ts t points
    = Returned (points ++ map (instant t Ts) (seq 0 n)).
Proof.
  unfold instant.
  induction n as [|n IH]; intros fuel t points Hfuel Hin Hout;
    (destruct fuel as [|fuel]; [lia|]);
    change (sampleLoop (S fuel) end_ Ts t points)
      with (if leb t (add end_ (div Ts (of_Z 2)))
            then sampleLoop fuel end_ Ts (add t Ts) (points ++ [t])
            else Returned points);
    exact_arith;
    destruct (Rle_dec t (end_ + Ts / 2)) as [Hle|Hgt].
  - cbn [INR] in Hout. lra.
  - cbn [seq map]. now rewrite app_nil_r.
  - rewrite IH.
    + rewrite <- app_assoc. cbn [app seq map].
      rewrite <- seq_shift, map_map.
      do 3 f_equal.
      * cbn [INR]. ring.
      * apply map_ext. intros k. rewrite S_INR. ring.
    + lia.
    + intros k Hk. specialize (Hin (S k)). rewrite S_INR in Hin.
      assert (Hk' : (S k < S n)%nat) by lia. apply Hin in Hk'. lra.
    + rewrite S_INR in Hout. lra.
  - specialize (Hin 0%nat). cbn [INR] in Hin.
    assert (H0 : (0 < S n)%nat) by lia. apply Hin in H0. lra.
Qed.

(** The number of instants up to the bound. *)
Lemma sample_count (end_ Ts : R) (HTs : 0 < Ts) (m : nat) :
  forall t : R,
    end_ + Ts / 2 - t < INR m * Ts ->
    exists n : nat,
      (forall k : nat, (k < n)%nat -> instant t Ts k <= end_ + Ts / 2)
      /\ end_ + Ts / 2 < instant t Ts n.
Proof.
  unfold instant.
  induction m as [|m IH]; intros t Hnear.
  - exists 0%nat. split; [intros k Hk; lia|]. cbn [INR] in *. lra.
  - destruct (Rle_dec t (end_ + Ts / 2)) as [Hle|Hgt].
    + destruct (IH (t + Ts)) as [n [Hin Hout]].
      { rewrite S_INR in Hnear. lra. }
      exists (S n). split.
      * intros [|k] Hk; [cbn [INR]; lra|].
        rewrite S_INR. specialize (Hin k). 
        assert (Hk' : (k < n)%nat) by lia. apply Hin in Hk'. lra.
      * rewrite S_INR. lra.
    + exists 0%nat. split; [intros k Hk; lia|]. cbn [INR]. lra.
Qed.

(** The instants that the loop adds to the points it starts with. *)
Lemma sampleLoop_instants (end_ Ts t : R) :
  0 < Ts ->
  exists n : nat,
    (forall (fuel : nat) (points : list R),
        (n < fuel)%nat ->
        sampleLoop fuel end_ Ts t points
        = Returned (points ++ map (instant t Ts) (seq 0 n)))
    /\ (forall k : nat, (k < n)%nat -> instant t Ts k <= end_ + Ts / 2)
    /\ end_ + Ts / 2 < instant t Ts n.
Proof.
  intros HTs.
  destruct (INR_unbounded ((end_ + Ts / 2 - t) / Ts)) as [m Hm].
  apply Rmult_lt_compat_r with (r := Ts) in Hm; [|exact HTs].
  unfold Rdiv in Hm at 1.
  rewrite Rmult_assoc, Rinv_l, Rmult_1_r in Hm by lra.
  destruct (sample_count end_ Ts HTs m t Hm) as [n [Hin Hout]].
  exists n. split; [|split; assumption].
  intros fuel points Hfuel.
  apply (sampleLoop_grid end_ Ts n fuel t points Hfuel Hin Hout).
Qed.

(** X7: on exact numbers and for a positive rate, [generateSampleTimePoints]
    returns the instants [start + k / fs] for [k = 0, 1, ..., n - 1], where
    [n] is the number of those instants that are at most [end + Ts / 2]: all
    of them are returned, and instant [n] is the first one beyond the
    bound. *)
Theorem generateSampleTimePoints_grid (start end_ fs : R) :
  0 < fs ->
  exists n : nat,
    (forall fuel : nat,
        (n < fuel)%nat ->
        generateSampleTimePoints fuel start end_ fs
        = Returned (map (instant start (1 / fs)) (seq 0 n)))
    /\ (forall k : nat,
          (k < n)%nat -> instant start (1 / fs) k <= end_ + 1 / fs / 2)
    /\ end_ + 1 / fs / 2 < instant start (1 / fs) n.
Proof.
  intros Hfs.
  assert (HTs : 0 < 1 / fs) by (apply Rdiv_lt_0_compat; lra).
  destruct (sampleLoop_instants end_ (1 / fs) start HTs) as [n [Hloop Hbounds]].
  exists n. split; [|exact Hbounds].
  intros fuel Hfuel. apply (Hloop fuel [] Hfuel).
Qed.

Lemma generateSampleTimePoints_grid_witness :
  exists n : nat,
    (forall fuel : nat,
        (n < fuel)%nat ->
        generateSampleTimePoints fuel 0 1 2
        = Returned (map (instant 0 (1 / 2)) (seq 0 n)))
    /\ (forall k : nat,
          (k < n)%nat -> instant 0 (1 / 2) k <= 1 + 1 / 2 / 2)
    /\ 1 + 1 / 2 / 2 < instant 0 (1 / 2) n.
Proof.
  apply (generateSampleTimePoints_grid 0 1 2). lra.
Defined.

End SampleGridExact.

(** ** Reconstruction from the samples *)

Section SincReconstructExact.
Local Open Scope R_scope.

Variables (start Ts : R).
Hypothesis HTs : 0 < Ts.

Lemma instant_lt (j k : nat) :
  (j < k)%nat -> instant start Ts j < instant start Ts k.
Proof.
  intros Hjk. unfold instant. apply lt_INR in Hjk.
  apply Rplus_lt_compat_l, Rmult_lt_compat_r; assumption.
Qed.

Lemma findIndexFrom_grid (j : nat) (m : nat) :
  forall a i : nat,
    (a <= j < a + m)%nat ->
    findIndexFrom (instant start Ts j) (map (instant start Ts) (seq a m)) i
    = Some (i + (j - a))%nat.
Proof.
  induction m as [|m IH]; intros a i Hj; [lia|].
  cbn [seq map findIndexFrom]. exact_arith.
  destruct (Rle_dec (instant start Ts j) (instant start Ts a)) as [Hle|Hgt].
  - destruct (Nat.eq_dec a j) as [->|Hne].
    + now rewrite Nat.sub_diag, Nat.add_0_r.
    + assert (Hlt : instant start Ts a < instant start Ts j)
        by (apply instant_lt; lia).
      lra.
  - destruct (Nat.eq_dec a j) as [->|Hne]; [lra|].
    rewrite IH by lia. f_equal. lia.
Qed.

Lemma sinc_grid (j k : nat) :
  sinc ((instant start Ts j - instant start Ts k) / Ts)
  = if Nat.eqb k j then 1 else 0.
Proof.
  replace ((instant start Ts j - instant start Ts k) / Ts)
    with (IZR (Z.of_nat j - Z.of_nat k)).
  - destruct (Nat.eqb_spec k j) as [->|Hne].
    + rewrite Z.sub_diag. apply sinc_zero.
    + apply sinc_integer. lia.
  - rewrite minus_IZR, <- !INR_IZR_INZ. unfold instant. field. lra.
Qed.

Lemma reconstructLoop_grid (n j : nat) (samples : list R)
  (Hsamples : List.length samples = n) (count : nat) :
  forall (i : nat) (r : R),
    (i + count <= n)%nat ->
    reconstructLoop (instant start Ts j) Ts (map (instant start Ts) (seq 0 n))
                    samples count i
                    (Some r)
    = Some (r + if (i <=? j)%nat && (j <? i + count)%nat
                then nth j samples 0 else 0).
Proof.
  induction count as [|count IH]; intros i r Hi.
  - cbn [reconstructLoop]. f_equal.
    destruct (Nat.leb_spec i j), (Nat.ltb_spec j (i + 0)); cbn; try lra; lia.
  - cbn [reconstructLoop].
    rewrite nth_error_map, nth_error_seq.
    destruct (Nat.ltb_spec i n) as [Hin|Hin]; [|lia].
    cbn [option_map Nat.add].
    rewrite (nth_error_nth' samples 0) by lia.
    change (add r (mul (nth i samples 0)
                       (sinc (div (sub (instant start Ts j)
                                       (instant start Ts i)) Ts))))
      with (r + nth i samples 0
                * sinc ((instant start Ts j - instant start Ts i) / Ts)).
    rewrite sinc_grid, IH by lia. f_equal.
    destruct (Nat.eqb_spec i j) as [->|Hne].
    + rewrite Nat.leb_refl.
      destruct (Nat.leb_spec (S j) j); [lia|].
      destruct (Nat.ltb_spec j (j + S count)); [|lia].
      cbn. lra.
    + destruct (Nat.leb_spec (S i) j), (Nat.leb_spec i j),
        (Nat.ltb_spec j (S i + count)), (Nat.ltb_spec j (i + S count));
        cbn; try lra; lia.
Qed.

(** X8: on exact numbers the reconstruction passes through the samples: at
    instant [j] of a uniform grid of [n] sampling instants with period
    [Ts > 0], [sincReconstruct] returns sample [j], whatever the other
    samples are. *)
Theorem sincReconstruct_at_sample (n j : nat) (samples : list R) :
  List.length samples = n ->
  (j < n)%nat ->
  sincReconstruct (instant start Ts j) (map (instant start Ts) (seq 0 n))
                  samples Ts
  = Some (nth j samples 0).
Proof.
  intros Hsamples Hj. unfold sincReconstruct.
  rewrite findIndexFrom_grid by lia.
  rewrite length_map, length_seq, Nat.add_0_l, Nat.sub_0_r.
  rewrite (reconstructLoop_grid n j samples Hsamples) by lia.
  destruct (Nat.leb_spec (j - 20) j) as [_|Hlow]; [|lia].
  destruct (Nat.ltb_spec j (j - 20 + (Nat.min n (j + 20) - (j - 20))))
    as [_|Hhigh]; [|lia].
  cbn [andb]. exact_arith. f_equal. lra.
Qed.

End SincReconstructExact.

Lemma sincReconstruct_at_sample_witness :
  sincReconstruct (instant 0 1 1) (map (instant 0 1) (seq 0 2)) [4; 5]%R 1%R
  = Some (nth 1 [4; 5]%R 0%R).
Proof.
  apply (sincReconstruct_at_sample 0 1 Rlt_0_1 2 1 [4; 5]%R);
    [reflexivity|lia].
Defined.

Section SincReconstructWindow.
Context {num : Type} {number : JSNumber num} {math : JSMath num}.

Lemma findIndexFrom_bounds (t : num) (sampleTimes : list num) :
  forall i c : nat,
    findIndexFrom t sampleTimes i = Some c ->
    (i <= c < i + List.length sampleTimes)%nat.
Proof.
  induction sampleTimes as [|ts rest IH]; intros i c Hfind; [discriminate|].
  cbn [findIndexFrom] in Hfind. cbn [List.length].
  destruct (leb t ts).
  - injection Hfind as <-. lia.
  - apply IH in Hfind. lia.
Qed.

Lemma reconstructLoop_same_window (t Ts : num)
  (sampleTimes samples samples' : list num) (count : nat) :
  forall (i : nat) (r : option num),
    (forall k : nat,
        (i <= k < i + count)%nat -> nth_error samples k = nth_error samples' k) ->
    reconstructLoop t Ts sampleTimes samples count i r
    = reconstructLoop t Ts sampleTimes samples' count i r.
Proof.
  induction count as [|count IH]; intros i r Hsame; [reflexivity|].
  cbn [reconstructLoop].
  rewrite (Hsame i) by lia.
  apply IH. intros k Hk. apply Hsame. lia.
Qed.

Lemma reconstructLoop_defined (t Ts : num) (sampleTimes samples : list num)
  (count : nat) :
  forall (i : nat) (r : num),
    (i + count <= List.length sampleTimes)%nat ->
    (i + count <= List.length samples)%nat ->
    exists v : num,
      reconstructLoop t Ts sampleTimes samples count i (Some r) = Some v.
Proof.
  induction count as [|count IH]; intros i r Htimes Hsamples.
  - exists r. reflexivity.
  - cbn [reconstructLoop].
    destruct (nth_error sampleTimes i) as [t_n|] eqn:Ht_n.
    2: { apply nth_error_None in Ht_n. lia. }
    destruct (nth_error samples i) as [x|] eqn:Hx.
    2: { apply nth_error_None in Hx. lia. }
    apply IH; lia.
Qed.

(** X9: [sincReconstruct] reads at most 40 samples: those from 20 places before
    the first sampling instant that is not before [t] up to 19 places after
    it, or the last 20 when every instant is before [t].  Samples outside
    this window, and samples without a sampling instant, do not change the
    result. *)
Theorem sincReconstruct_window (t Ts : num)
  (sampleTimes samples samples' : list num) :
  (forall k : nat,
      let centerIndex :=
        match findIndexFrom t sampleTimes 0 with
        | Some c => c
        | None => List.length sampleTimes
        end in
      (centerIndex - 20 <= k
       < Nat.min (List.length sampleTimes) (centerIndex + 20))%nat ->
      nth_error samples k = nth_error samples' k) ->
  sincReconstruct t sampleTimes samples Ts
  = sincReconstruct t sampleTimes samples' Ts.
Proof.
  intros Hsame. unfold sincReconstruct.
  destruct (findIndexFrom t sampleTimes 0) as [c|];
    apply reconstructLoop_same_window; intros k Hk; apply Hsame; cbn zeta; lia.
Qed.

(** X10: [sincReconstruct] returns a number and never reads a missing sample when
    there are at least as many samples as sampling instants. *)
Theorem sincReconstruct_defined (t Ts : num) (sampleTimes samples : list num) :
  (List.length sampleTimes <= List.length samples)%nat ->
  exists v : num, sincReconstruct t sampleTimes samples Ts = Some v.
Proof.
  intros Hlength. unfold sincReconstruct.
  destruct (findIndexFrom t sampleTimes 0) as [c|] eqn:Hfind.
  - apply findIndexFrom_bounds in Hfind.
    apply reconstructLoop_defined; lia.
  - apply reconstructLoop_defined; lia.
Qed.

End SincReconstructWindow.

Lemma sincReconstruct_window_witness :
  sincReconstruct 0%R [0%R] [4%R] 1%R
  = sincReconstruct 0%R [0%R] [4%R; 5%R] 1%R.
Proof.
  apply (sincReconstruct_window (num := R) 0%R 1%R [0%R] [4%R] [4%R; 5%R]).
  intros k centerIndex Hk.
  assert (Hk0 : k = 0%nat) by (cbn [List.length] in Hk; lia).
  rewrite Hk0. reflexivity.
Defined.

Lemma sincReconstruct_defined_witness :
  exists v : R, sincReconstruct 0%R [0%R] [4%R] 1%R = Some v.
Proof.
  apply (sincReconstruct_defined (num := R) 0%R 1%R [0%R] [4%R]).
  cbn. lia.
Defined.

(** ** The reconstruction error *)

Section ReconstructionErrorExact.
Local Open Scope R_scope.

(** The sum of the squared differences of two arrays, place by place. *)
Lemma sumSquaredErrorFrom_exact (original : list R) :
  forall (reconstructed : list R) (sumSquaredError : R),
    sumSquaredErrorFrom original reconstructed sumSquaredError
    = sumSquaredError
      + sumOf (map (fun pair => (fst pair - snd pair) * (fst pair - snd pair))
                   (combine original reconstructed)).
Proof.
  induction original as [|o original IH];
    intros [|r reconstructed] sumSquaredError;
    cbn [sumSquaredErrorFrom combine map sumOf fold_right]; try lra.
  rewrite IH. exact_arith. unfold sumOf. cbn [fst snd]. lra.
Qed.

Lemma sumOf_squares_nonneg (pairs : list (R * R)) :
  0 <= sumOf (map (fun pair => (fst pair - snd pair) * (fst pair - snd pair))
                  pairs).
Proof.
  unfold sumOf.
  induction pairs as [|pair pairs IH]; cbn [map fold_right]; [lra|].
  pose proof (Rle_0_sqr (fst pair - snd pair)) as Hhead.
  unfold Rsqr in Hhead. lra.
Qed.

Lemma sumOf_squares_zero (original : list R) :
  forall reconstructed : list R,
    List.length original = List.length reconstructed ->
    sumOf (map (fun pair => (fst pair - snd pair) * (fst pair - snd pair))
               (combine original reconstructed)) = 0 ->
    original = reconstructed.
Proof.
  induction original as [|o original IH]; intros [|r reconstructed] Hlength Hsum;
    try discriminate; [reflexivity|].
  pose proof (sumOf_squares_nonneg (combine original reconstructed)) as Hrest.
  unfold sumOf in *.
  cbn [combine map fold_right fst snd] in Hsum.
  pose proof (Rle_0_sqr (o - r)) as Hhead. unfold Rsqr in Hhead.
  f_equal; [nra|].
  apply IH; [now injection Hlength|lra].
Qed.

Lemma sumOf_squares_bound (delta : R) (original : list R) :
  forall reconstructed : list R,
    List.length original = List.length reconstructed ->
    (forall i : nat,
        (i < List.length original)%nat ->
        Rabs (nth i original 0 - nth i reconstructed 0) <= delta) ->
    sumOf (map (fun pair => (fst pair - snd pair) * (fst pair - snd pair))
               (combine original reconstructed))
    <= INR (List.length original) * (delta * delta).
Proof.
  induction original as [|o original IH]; intros [|r reconstructed] Hlength Hclose;
    try discriminate.
  - cbn. lra.
  - assert (Hrest : sumOf (map (fun pair =>
                                  (fst pair - snd pair) * (fst pair - snd pair))
                               (combine original reconstructed))
                    <= INR (List.length original) * (delta * delta)).
    { apply IH; [now injection Hlength|].
      intros i Hi. apply (Hclose (S i)). cbn [List.length]. lia. }
    assert (Hhead : Rabs (o - r) <= delta).
    { apply (Hclose 0%nat). cbn [List.length]. lia. }
    assert (Hsquare : (o - r) * (o - r) <= delta * delta).
    { pose proof (Rabs_pos (o - r)) as Hpos.
      replace ((o - r) * (o - r)) with (Rabs (o - r) * Rabs (o - r)).
      - nra.
      - unfold Rabs. destruct (Rcase_abs (o - r)); ring. }
    change (List.length (o :: original)) with (S (List.length original)).
    rewrite S_INR.
    unfold sumOf in *. cbn [combine map fold_right fst snd]. lra.
Qed.



End ReconstructionErrorExact.


(** ** The derivation steps and sharper bounds on the entropy *)

Section EntropySteps.
Local Open Scope R_scope.

Lemma shannonTerm_nonneg (p : R) : p <= 1 -> 0 <= shannonTerm p.
Proof.
  intros Hp. unfold shannonTerm.
  destruct (Rlt_dec 0 p) as [Hpos|_]; [|lra].
  pose proof ln_2_pos as H2.
  assert (Hln : ln p <= 0).
  { destruct (Req_dec p 1) as [->|Hne]; [rewrite ln_1; lra|].
    rewrite <- ln_1. left. apply ln_increasing; lra. }
  assert (Hinv : 0 < / ln 2) by now apply Rinv_0_lt_compat.
  assert (Hquot : 0 <= - ln p * / ln 2) by (apply Rmult_le_pos; lra).
  assert (Hterm : 0 <= p * (- ln p * / ln 2)) by (apply Rmult_le_pos; lra).
  unfold Rdiv. lra.
Qed.

Lemma sumOf_shannonTerm_nonneg (probs : list R) :
  Forall (fun p => p <= 1) probs -> 0 <= sumOf (map shannonTerm probs).
Proof.
  unfold sumOf. induction 1 as [|p probs Hp _ IH]; cbn [map fold_right]; [lra|].
  pose proof (shannonTerm_nonneg p Hp). lra.
Qed.

Lemma tally_at_most_sum (tally : list nat) (c : nat) :
  In c tally -> (c <= list_sum tally)%nat.
Proof.
  induction tally as [|d tally IH]; intros Hin; [contradiction|].
  cbn [list_sum fold_right]. destruct Hin as [->|Hin]; [lia|].
  apply IH in Hin. unfold list_sum in Hin. lia.
Qed.

Lemma probabilities_at_most_1 (tally : list nat) (n : nat) :
  (0 < n)%nat -> list_sum tally = n ->
  Forall (fun p => p <= 1) (map (fun c => INR c / INR n) tally).
Proof.
  intros Hn Hsum. apply Forall_forall. intros p Hp.
  apply in_map_iff in Hp. destruct Hp as [c [<- Hc]].
  apply tally_at_most_sum in Hc. rewrite Hsum in Hc.
  apply le_INR in Hc. apply lt_0_INR in Hn.
  apply Rmult_le_reg_r with (r := INR n); [exact Hn|].
  unfold Rdiv. rewrite Rmult_assoc, Rinv_l, Rmult_1_r by lra. lra.
Qed.

(** The bins of positive probability are the bins of positive tally. *)
Lemma filter_positive_probabilities (tally : list nat) (n : nat) :
  (0 < n)%nat ->
  filter (fun p => ltb (of_Z 0) p) (map (fun c => INR c / INR n) tally)
  = map (fun c => INR c / INR n) (filter (fun c => (0 <? c)%nat) tally).
Proof.
  intros Hn. apply lt_0_INR in Hn.
  induction tally as [|c tally IH]; [reflexivity|].
  cbn [map filter]. rewrite IH. exact_arith.
  destruct (Nat.ltb_spec 0 c) as [Hc|Hc];
    destruct (Rlt_dec 0 (INR c / INR n)) as [Hp|Hp]; try reflexivity.
  - exfalso. apply Hp. apply Rdiv_lt_0_compat; [now apply lt_0_INR|exact Hn].
  - exfalso. assert (c = 0%nat) as -> by lia.
    cbn [INR] in Hp. unfold Rdiv in Hp. rewrite Rmult_0_l in Hp. lra.
Qed.

Lemma sumOf_filter_positive (tally : list nat) (n : nat) :
  sumOf (map (fun c => INR c / INR n) (filter (fun c => (0 <? c)%nat) tally))
  = sumOf (map (fun c => INR c / INR n) tally).
Proof.
  unfold sumOf. induction tally as [|c tally IH]; [reflexivity|].
  cbn [filter]. destruct (Nat.ltb_spec 0 c) as [Hc|Hc];
    cbn [map fold_right]; rewrite IH; [reflexivity|].
  assert (c = 0%nat) as -> by lia. cbn [INR]. lra.
Qed.

Lemma sumOf_shannonTerm_filter_positive (tally : list nat) (n : nat) :
  sumOf (map shannonTerm
             (map (fun c => INR c / INR n)
                  (filter (fun c => (0 <? c)%nat) tally)))
  = sumOf (map shannonTerm (map (fun c => INR c / INR n) tally)).
Proof.
  unfold sumOf. induction tally as [|c tally IH]; [reflexivity|].
  cbn [filter]. destruct (Nat.ltb_spec 0 c) as [Hc|Hc];
    cbn [map fold_right]; rewrite IH; [reflexivity|].
  assert (c = 0%nat) as -> by lia. cbn [INR].
  unfold shannonTerm, Rdiv. rewrite Rmult_0_l.
  destruct (Rlt_dec 0 0); lra.
Qed.

Lemma occupied_at_most_sum (tally : list nat) :
  (List.length (filter (fun c => (0 <? c)%nat) tally) <= list_sum tally)%nat.
Proof.
  induction tally as [|c tally IH]; [cbn; lia|].
  cbn [filter list_sum fold_right]. unfold list_sum in IH.
  destruct (Nat.ltb_spec 0 c); cbn [List.length]; lia.
Qed.

Lemma occupied_at_least_1 (tally : list nat) :
  (0 < list_sum tally)%nat ->
  (1 <= List.length (filter (fun c => (0 <? c)%nat) tally))%nat.
Proof.
  induction tally as [|c tally IH]; cbn [list_sum fold_right filter];
    [lia|].
  intros Hsum. unfold list_sum in IH.
  destruct (Nat.ltb_spec 0 c); cbn [List.length]; [lia|].
  apply IH. lia.
Qed.

(** The tallies of a signal are the numbers of samples of the bins. *)
Lemma tally_samplesInBin (signal : list (SignalPoint R)) (numBins : nat)
  (tally : list nat) :
  List.length tally = numBins ->
  (forall i, (i < numBins)%nat ->
             nth i tally 0%nat = samplesInBin numBins signal i) ->
  tally = map (samplesInBin numBins signal) (seq 0 numBins).
Proof.
  intros Hlen Hnth.
  apply (nth_ext _ _ 0%nat (samplesInBin numBins signal 0)).
  - now rewrite length_map, length_seq.
  - intros i Hi. rewrite Hlen in Hi.
    rewrite map_nth, seq_nth by exact Hi. now apply Hnth.
Qed.

Lemma occupiedBins_tally (signal : list (SignalPoint R)) (numBins : nat) :
  List.length (filter (fun c => (0 <? c)%nat)
                      (map (samplesInBin numBins signal) (seq 0 numBins)))
  = occupiedBins numBins signal.
Proof.
  unfold occupiedBins.
  induction (seq 0 numBins) as [|i l IH]; [reflexivity|].
  cbn [map filter].
  destruct (0 <? samplesInBin numBins signal i)%nat; cbn [List.length];
    now rewrite IH.
Qed.

(** What [calculateEntropy] returns for a signal that is not empty, with its
    steps. *)
Lemma calculateEntropy_exact_steps (signal : list (SignalPoint R)) :
  signal <> [] ->
  let n := List.length signal in
  let tally := map (samplesInBin 20 signal) (seq 0 20) in
  let probs := map (fun c => INR c / INR n) tally in
  let H := sumOf (map shannonTerm probs) in
  calculateEntropy signal
  = Some {| entropy := H;
            probabilities := probs;
            stepByStep :=
              [{| step := "1"; stepValue := INR n |};
               {| step := "2"; stepValue := INR (occupiedBins 20 signal) |};
               {| step := "3"; stepValue := H |};
               {| step := "4"; stepValue := H |}] |}
  /\ list_sum tally = n
  /\ 0 <= H.
Proof.
  intros Hne n tally probs H.
  destruct (calculateJointProbability_exact signal 20 ltac:(lia))
    as [tally' [Hprobs [Hlen [Hnth Hsum]]]].
  rewrite (tally_samplesInBin signal 20 tally' Hlen Hnth) in Hprobs, Hsum.
  fold tally in Hprobs, Hsum. fold n in Hprobs, Hsum. fold probs in Hprobs.
  assert (Hn : (0 < n)%nat).
  { unfold n. destruct signal; [congruence|cbn; lia]. }
  assert (HH : 0 <= H).
  { apply sumOf_shannonTerm_nonneg, probabilities_at_most_1; assumption. }
  split; [|split; assumption].
  destruct signal as [|point rest]; [congruence|].
  unfold calculateEntropy. rewrite Hprobs.
  pose proof (fold_addContribution_exact probs [] (of_Z 0)) as Hfold.
  destruct (fold_left addContribution probs ([], of_Z 0))
    as [contributions total] eqn:Hloop.
  cbn [snd of_Z Exact.number] in Hfold.
  rewrite Rplus_0_l in Hfold. subst total. fold H.
  assert (Hocc : List.length (filter (fun p => ltb (of_Z 0) p) probs)
                 = occupiedBins 20 (point :: rest)).
  { unfold probs. rewrite filter_positive_probabilities by exact Hn.
    rewrite length_map. apply occupiedBins_tally. }
  rewrite Hocc. unfold of_nat. exact_arith. rewrite <- !INR_IZR_INZ.
  rewrite Rmax_right by exact HH. reflexivity.
Qed.

Lemma occupiedBins_range (signal : list (SignalPoint R)) :
  signal <> [] ->
  (1 <= occupiedBins 20 signal <= Nat.min (List.length signal) 20)%nat.
Proof.
  intros Hne.
  destruct (calculateEntropy_exact_steps signal Hne) as [_ [Hsum _]].
  rewrite <- occupiedBins_tally.
  assert (Hn : (0 < List.length signal)%nat).
  { destruct signal; [congruence|cbn; lia]. }
  split.
  - apply occupied_at_least_1. rewrite Hsum. exact Hn.
  - apply Nat.min_glb.
    + rewrite <- Hsum. apply occupied_at_most_sum.
    + etransitivity; [apply filter_length_le|].
      rewrite length_map, length_seq. lia.
Qed.

Lemma entropy_at_most_log2_occupied (signal : list (SignalPoint R)) :
  signal <> [] ->
  sumOf (map shannonTerm
             (map (fun c => INR c / INR (List.length signal))
                  (map (samplesInBin 20 signal) (seq 0 20))))
  <= ln (INR (occupiedBins 20 signal)) / ln 2.
Proof.
  intros Hne.
  destruct (calculateEntropy_exact_steps signal Hne) as [_ [Hsum _]].
  pose proof (occupiedBins_range signal Hne) as [Hlow _].
  assert (Hn : (0 < List.length signal)%nat).
  { destruct signal; [congruence|cbn; lia]. }
  set (tally := map (samplesInBin 20 signal) (seq 0 20)) in *.
  rewrite <- sumOf_shannonTerm_filter_positive.
  rewrite <- occupiedBins_tally. fold tally.
  rewrite <- (length_map (fun c => INR c / INR (List.length signal))
                         (filter (fun c => (0 <? c)%nat) tally)).
  apply sumOf_shannonTerm_le_log2.
  - intros Hnil. apply (f_equal (@List.length R)) in Hnil.
    rewrite length_map in Hnil. unfold tally in Hnil.
    rewrite occupiedBins_tally in Hnil. cbn [List.length] in Hnil. lia.
  - apply Forall_forall. intros p Hp.
    apply in_map_iff in Hp. destruct Hp as [c [<- _]].
    apply Rdiv_nonneg; [apply pos_INR|now apply lt_0_INR].
  - rewrite sumOf_filter_positive. now apply probabilities_sum.
Qed.

End EntropySteps.

(** X13: on exact numbers and for a signal that is not empty, the four steps that
    [calculateEntropy] returns hold the number of samples, the number of bins
    that hold a sample, which is from 1 up to the smaller one of the number
    of samples and 20, and twice the entropy it returns: the final
    [Math.max(0, entropy)] changes nothing. *)
Theorem calculateEntropy_steps (signal : list (SignalPoint R)) :
  signal <> [] ->
  exists result : EntropyResult R,
    calculateEntropy signal = Some result
    /\ stepByStep result
       = [{| step := "1"; stepValue := INR (List.length signal) |};
          {| step := "2"; stepValue := INR (occupiedBins 20 signal) |};
          {| step := "3"; stepValue := entropy result |};
          {| step := "4"; stepValue := entropy result |}]
    /\ (1 <= occupiedBins 20 signal <= Nat.min (List.length signal) 20)%nat.
Proof.
  intros Hne.
  destruct (calculateEntropy_exact_steps signal Hne) as [Hresult _].
  cbn zeta in Hresult.
  eexists. split; [exact Hresult|].
  split; [reflexivity|apply occupiedBins_range; exact Hne].
Qed.

Lemma calculateEntropy_steps_witness :
  exists result : EntropyResult R,
    calculateEntropy [{| index := 1%R; value := 0%R |}] = Some result
    /\ stepByStep result
       = [{| step := "1";
             stepValue := INR (List.length [{| index := 1%R; value := 0%R |}]) |};
          {| step := "2";
             stepValue :=
               INR (occupiedBins 20 [{| index := 1%R; value := 0%R |}]) |};
          {| step := "3"; stepValue := entropy result |};
          {| step := "4"; stepValue := entropy result |}]
    /\ (1 <= occupiedBins 20 [{| index := 1%R; value := 0%R |}]
        <= Nat.min (List.length [{| index := 1%R; value := 0%R |}]) 20)%nat.
Proof.
  apply (calculateEntropy_steps [{| index := 1%R; value := 0%R |}]).
  discriminate.
Defined.

(** X14: on exact numbers and for a signal that is not empty, the entropy that
    [calculateEntropy] returns is at most [log2] of the number of bins that
    hold a sample, and so at most [log2] of the number of samples. *)
Theorem calculateEntropy_at_most_log2_samples (signal : list (SignalPoint R)) :
  signal <> [] ->
  exists result : EntropyResult R,
    calculateEntropy signal = Some result
    /\ (entropy result <= Math_log2 (INR (occupiedBins 20 signal)))%R
    /\ (entropy result <= Math_log2 (INR (List.length signal)))%R.
Proof.
  intros Hne.
  destruct (calculateEntropy_exact_steps signal Hne) as [Hresult _].
  cbn zeta in Hresult.
  eexists. split; [exact Hresult|].
  cbn [entropy]. exact_arith.
  pose proof (entropy_at_most_log2_occupied signal Hne) as Hbound.
  pose proof (occupiedBins_range signal Hne) as [Hlow Hhigh].
  split; [exact Hbound|].
  eapply Rle_trans; [exact Hbound|].
  pose proof ln_2_pos as H2.
  apply Rmult_le_compat_r; [left; now apply Rinv_0_lt_compat|].
  assert (Hle : (INR (occupiedBins 20 signal) <= INR (List.length signal))%R).
  { apply le_INR. lia. }
  assert (Hpos : (0 < INR (occupiedBins 20 signal))%R).
  { apply lt_0_INR. lia. }
  destruct Hle as [Hlt|Heq]; [|rewrite Heq; apply Rle_refl].
  left. apply ln_increasing; assumption.
Qed.

Lemma calculateEntropy_at_most_log2_samples_witness :
  exists result : EntropyResult R,
    calculateEntropy [{| index := 1%R; value := 0%R |}] = Some result
    /\ (entropy result
        <= Math_log2 (INR (occupiedBins 20 [{| index := 1%R; value := 0%R |}])))%R
    /\ (entropy result
        <= Math_log2 (INR (List.length [{| index := 1%R; value := 0%R |}])))%R.
Proof.
  apply (calculateEntropy_at_most_log2_samples
           [{| index := 1%R; value := 0%R |}]).
  discriminate.
Defined.

(** X15: on exact numbers a signal whose samples all fall into one bin, a constant
    signal for one, has the entropy 0. *)
Theorem calculateEntropy_one_bin (signal : list (SignalPoint R)) (bin : Z) :
  signal <> [] ->
  (forall point : SignalPoint R,
      In point signal -> binIndex_spec 20 (value point) = bin) ->
  exists result : EntropyResult R,
    calculateEntropy signal = Some result /\ entropy result = 0%R.
Proof.
  intros Hne Hbin.
  destruct (calculateEntropy_exact_steps signal Hne) as [Hresult [_ Hpos]].
  cbn zeta in Hresult, Hpos.
  eexists. split; [exact Hresult|].
  cbn [entropy].
  apply Rle_antisym; [|exact Hpos].
  eapply Rle_trans; [apply entropy_at_most_log2_occupied; exact Hne|].
  assert (Hone : occupiedBins 20 signal = 1%nat).
  { pose proof (occupiedBins_range signal Hne) as [Hlow _].
    apply Nat.le_antisymm; [|exact Hlow].
    unfold occupiedBins.
    assert (Hfilter : forall i : nat,
               (0 <? samplesInBin 20 signal i)%nat = true -> Z.of_nat i = bin).
    { intros i Hi. apply Nat.ltb_lt in Hi. unfold samplesInBin in Hi.
      destruct (filter _ signal) as [|point rest] eqn:Hf; [cbn in Hi; lia|].
      assert (Hin : In point (point :: rest)) by now left.
      rewrite <- Hf in Hin. apply filter_In in Hin. destruct Hin as [Hin Heq].
      apply Z.eqb_eq in Heq. rewrite <- Heq. now apply Hbin. }
    assert (Hsub : forall l : list nat,
               NoDup l ->
               (List.length (filter (fun i => (0 <? samplesInBin 20 signal i)%nat)
                                    l) <= 1)%nat).
    { induction l as [|i l IH]; intros Hnodup; [cbn; lia|].
      inversion Hnodup as [|? ? Hnotin Hnodup']; subst.
      cbn [filter].
      destruct (0 <? samplesInBin 20 signal i)%nat eqn:Hi; [|now apply IH].
      cbn [List.length].
      assert (Hempty : filter (fun i => (0 <? samplesInBin 20 signal i)%nat) l
                       = []).
      { destruct (filter _ l) as [|j rest] eqn:Hf; [reflexivity|].
        assert (Hin : In j (j :: rest)) by now left.
        rewrite <- Hf in Hin. apply filter_In in Hin. destruct Hin as [Hin Hj].
        apply Hfilter in Hi. apply Hfilter in Hj.
        assert (i = j) by lia. subst j. contradiction. }
      rewrite Hempty. cbn. lia. }
    apply Hsub, seq_NoDup. }
  rewrite Hone. cbn [INR]. rewrite ln_1. unfold Rdiv. rewrite Rmult_0_l.
  apply Rle_refl.
Qed.

Lemma calculateEntropy_one_bin_witness :
  exists result : EntropyResult R,
    calculateEntropy [{| index := 1%R; value := 0%R |};
                      {| index := 2%R; value := 0%R |}] = Some result
    /\ entropy result = 0%R.
Proof.
  apply (calculateEntropy_one_bin
           [{| index := 1%R; value := 0%R |}; {| index := 2%R; value := 0%R |}]
           (binIndex_spec 20 0)).
  - discriminate.
  - intros point [<- | [<- | []]]; reflexivity.
Defined.

(** ** The order of the samples *)

Lemma array_set_swap {A : Type} (a : list A) :
  forall (i j : nat) (v w : A),
    i <> j ->
    array_set (array_set a i v) j w = array_set (array_set a j w) i v.
Proof.
  induction a as [|x a IH]; intros [|i] [|j] v w Hij; cbn; try reflexivity.
  - congruence.
  - f_equal. apply IH. congruence.
Qed.

Section SampleOrder.
Context {num : Type} {number : JSNumber num} {math : JSMath num}.

(** One round of [discretized.forEach(bin => { counts[bin]++; })]. *)
Local Abbreviation count_bin :=
  (fun (counts : option (list num)) (bin : num) =>
     match counts with
     | Some c => array_incr c bin
     | None => None
     end).

Lemma count_bin_swap (counts : option (list num)) (a b : num) :
  count_bin (count_bin counts a) b = count_bin (count_bin counts b) a.
Proof.
  destruct counts as [c|]; [|reflexivity].
  unfold array_incr.
  destruct (to_index a) as [i|], (to_index b) as [j|].
  - destruct (N.ltb_spec i (N.of_nat (List.length c))) as [Hi|Hi],
      (N.ltb_spec j (N.of_nat (List.length c))) as [Hj|Hj];
      rewrite ?array_set_length.
    + destruct (N.ltb_spec i (N.of_nat (List.length c))); [|lia].
      destruct (N.ltb_spec j (N.of_nat (List.length c))); [|lia].
      destruct (N.eq_dec i j) as [->|Hij]; [reflexivity|].
      assert (Hne : N.to_nat i <> N.to_nat j) by lia.
      rewrite (array_set_nth_other c (N.to_nat j) (N.to_nat i)) by congruence.
      rewrite (array_set_nth_other c (N.to_nat i) (N.to_nat j)) by congruence.
      f_equal. apply array_set_swap. exact Hne.
    + destruct (N.ltb_spec j (N.of_nat (List.length c))); [lia|reflexivity].
    + destruct (N.ltb_spec i (N.of_nat (List.length c))); [lia|reflexivity].
    + reflexivity.
  - destruct (i <? N.of_nat (List.length c))%N; reflexivity.
  - destruct (j <? N.of_nat (List.length c))%N; reflexivity.
  - reflexivity.
Qed.

Lemma countBins_permutation (discretized discretized' : list num) :
  Permutation discretized discretized' ->
  forall counts : option (list num),
    fold_left count_bin discretized counts
    = fold_left count_bin discretized' counts.
Proof.
  induction 1 as [|bin l l' _ IH|a b l|l l' l'' _ IH _ IH']; intros counts.
  - reflexivity.
  - cbn [fold_left]. apply IH.
  - cbn [fold_left]. now rewrite count_bin_swap.
  - now rewrite IH.
Qed.

(** X16: [calculateEntropy] looks at the values of the samples only, and not at
    their order: two signals with the same values, in any order and with any
    indices, get the same result.  This holds on any numbers, binary64 ones
    included. *)
Theorem calculateEntropy_order (signal signal' : list (SignalPoint num)) :
  Permutation (map (fun point => value point) signal)
              (map (fun point => value point) signal') ->
  calculateEntropy signal = calculateEntropy signal'.
Proof.
  intros Hvalues.
  assert (Hlength : List.length signal = List.length signal').
  { apply Permutation_length in Hvalues. now rewrite !length_map in Hvalues. }
  assert (Hprobs : calculateJointProbability signal 20
                   = calculateJointProbability signal' 20).
  { unfold calculateJointProbability, countBins.
    rewrite (countBins_permutation (discretizeSignal signal 20)
                                   (discretizeSignal signal' 20)).
    - now rewrite Hlength.
    - unfold discretizeSignal.
      rewrite <- (map_map (fun point => value point)
                          (fun v => Math_max (of_Z 0)
                                      (Math_min (sub (of_nat 20) (of_Z 1))
                                         (Math_floor
                                            (div (sub v (of_Z (-2)))
                                                 (div (sub (of_Z 2) (of_Z (-2)))
                                                      (of_nat 20))))))
                          signal).
      rewrite <- (map_map (fun point => value point)
                          (fun v => Math_max (of_Z 0)
                                      (Math_min (sub (of_nat 20) (of_Z 1))
                                         (Math_floor
                                            (div (sub v (of_Z (-2)))
                                                 (div (sub (of_Z 2) (of_Z (-2)))
                                                      (of_nat 20))))))
                          signal').
      apply Permutation_map. exact Hvalues. }
  destruct signal as [|point rest], signal' as [|point' rest'];
    try discriminate; [reflexivity|].
  unfold calculateEntropy. rewrite Hprobs.
  change (List.length (point :: rest)) with (S (List.length rest)).
  change (List.length (point' :: rest')) with (S (List.length rest')).
  injection Hlength as ->. reflexivity.
Qed.

End SampleOrder.

Lemma calculateEntropy_order_witness :
  calculateEntropy [{| index := 1%R; value := 0%R |};
                    {| index := 2%R; value := 1%R |}]
  = calculateEntropy [{| index := 7%R; value := 1%R |};
                      {| index := 9%R; value := 0%R |}].
Proof.
  apply (calculateEntropy_order (num := R)).
  cbn [map value]. apply perm_swap.
Defined.

(** ** More of the engine on binary64 numbers *)

(** X17: on binary64 numbers, whatever the samples are and whatever [Math.log2]
    returns, [calculateEntropy] returns a result; for a signal that is not
    empty it holds 20 probabilities and 4 steps; and the entropy is never
    below 0. *)
Theorem calculateEntropy_binary64_robust (math : JSMath float)
  (signal : list (SignalPoint float)) :
  exists result : EntropyResult float,
    calculateEntropy signal = Some result
    /\ (signal <> [] ->
        List.length (probabilities result) = 20%nat
        /\ List.length (stepByStep result) = 4%nat)
    /\ PrimFloat.ltb (entropy result) 0%float = false.
Proof.
  destruct signal as [|point rest].
  - eexists. split; [reflexivity|]. split; [congruence|reflexivity].
  - destruct (fold_array_incr_binary64
                (discretizeSignal (point :: rest) 20)
                (discretizeSignal_binary64_clamped (point :: rest))
                (repeat (of_Z 0) 20) (repeat_length _ _))
      as [counts [Hcounts Hlen]].
    unfold calculateEntropy, calculateJointProbability, countBins.
    rewrite Hcounts.
    destruct (fold_left addContribution _ _) as [contributions total].
    eexists. split; [reflexivity|].
    cbn [probabilities stepByStep entropy]. split.
    + intros _. split; [now rewrite length_map|reflexivity].
    + apply max_zero_not_negative.
Qed.

(** A float that [is_nan] holds of is the float [nan]. *)
Lemma is_nan_eq (x : float) : PrimFloat.is_nan x = true -> x = nan.
Proof.
  rewrite is_nan_spec. intros Hx. apply Prim2SF_nan.
  destruct (Prim2SF x); try discriminate. reflexivity.
Qed.

Lemma countBins_skips_nan (signal : list (SignalPoint float)) :
  forall counts : option (list float),
    fold_left (fun counts bin =>
                 match counts with
                 | Some c => array_incr c bin
                 | None => None
                 end)
              (discretizeSignal signal 20) counts
    = fold_left (fun counts bin =>
                   match counts with
                   | Some c => array_incr c bin
                   | None => None
                   end)
                (discretizeSignal
                   (filter (fun point => negb (PrimFloat.is_nan (value point)))
                           signal) 20)
                counts.
Proof.
  induction signal as [|point signal IH]; intros counts; [reflexivity|].
  cbn [filter].
  destruct (PrimFloat.is_nan (value point)) eqn:Hnan; cbn [negb].
  - unfold discretizeSignal at 1. cbn [map fold_left].
    rewrite (is_nan_eq _ Hnan).
    replace (match counts with
             | Some c => array_incr c _
             | None => None
             end) with counts.
    + apply IH.
    + destruct counts as [c|]; reflexivity.
  - unfold discretizeSignal at 1 2. cbn [map fold_left]. apply IH.
Qed.

(** X18: on binary64 numbers a sample that is NaN is counted in no bin, yet it is
    counted in the total the counts are divided by: the probabilities are the
    counts of the other samples over the number of all samples.  A signal
    of NaN samples only gets 20 probabilities [0 / N], which add up to 0. *)
Theorem calculateJointProbability_binary64_skips_nan
  (signal : list (SignalPoint float)) :
  calculateJointProbability signal 20
  = option_map
      (map (fun count => PrimFloat.div count (of_nat (List.length signal))))
      (countBins
         (discretizeSignal
            (filter (fun point => negb (PrimFloat.is_nan (value point))) signal)
            20)
         20)
  /\ ((forall point : SignalPoint float,
          In point signal -> PrimFloat.is_nan (value point) = true) ->
      calculateJointProbability signal 20
      = Some (repeat (PrimFloat.div 0 (of_nat (List.length signal))) 20)).
Proof.
  assert (Hskip : calculateJointProbability signal 20
                  = option_map
                      (map (fun count =>
                              PrimFloat.div count (of_nat (List.length signal))))
                      (countBins
                         (discretizeSignal
                            (filter (fun point =>
                                       negb (PrimFloat.is_nan (value point)))
                                    signal) 20) 20)).
  { unfold calculateJointProbability, countBins.
    rewrite countBins_skips_nan.
    destruct (fold_left _ _ _); reflexivity. }
  split; [exact Hskip|].
  intros Hall. rewrite Hskip.
  replace (filter (fun point => negb (PrimFloat.is_nan (value point))) signal)
    with (@nil (SignalPoint float)); [reflexivity|].
  symmetry. clear Hskip.
  induction signal as [|point signal IH]; [reflexivity|].
  cbn [filter]. rewrite (Hall point) by now left.
  cbn [negb]. apply IH. intros p Hp. apply Hall. now right.
Qed.

(** ** The rate 0 on binary64 numbers *)

Lemma Prim2SF_infinity (x : float) :
  Prim2SF x = S754_infinity false -> x = infinity.
Proof.
  intros Hx. rewrite <- (SF2Prim_Prim2SF x), Hx. reflexivity.
Qed.

(** Adding [Infinity] to a float above [-Infinity] gives [Infinity]. *)
Lemma add_infinity (x : float) :
  PrimFloat.ltb neg_infinity x = true -> PrimFloat.add x infinity = infinity.
Proof.
  rewrite ltb_spec. intros Hx. apply Prim2SF_infinity.
  rewrite add_spec.
  change (Prim2SF infinity) with (S754_infinity false).
  change (Prim2SF neg_infinity) with (S754_infinity true) in Hx.
  destruct (Prim2SF x) as [s|[|]| |s m e]; try discriminate; reflexivity.
Qed.

Lemma leb_infinity (x : float) :
  PrimFloat.ltb neg_infinity x = true -> PrimFloat.leb x infinity = true.
Proof.
  rewrite ltb_spec, leb_spec.
  change (Prim2SF infinity) with (S754_infinity false).
  change (Prim2SF neg_infinity) with (S754_infinity true).
  destruct (Prim2SF x) as [s|[|]| |s m e]; try discriminate;
    try reflexivity; destruct s; reflexivity.
Qed.

Lemma sampleLoop_infinite_period_runs (end_ : float) (fuel : nat) :
  PrimFloat.ltb neg_infinity end_ = true ->
  forall points : list float,
    sampleLoop fuel end_ infinity infinity points = Running.
Proof.
  intros Hend.
  induction fuel as [|fuel IH]; intros points; [reflexivity|].
  change (sampleLoop (S fuel) end_ infinity infinity points)
    with (if PrimFloat.leb infinity (PrimFloat.add end_ infinity)
          then sampleLoop fuel end_ infinity (infinity + infinity)%float
                 (points ++ [infinity])
          else Returned points).
  rewrite (add_infinity end_ Hend).
  change (PrimFloat.leb infinity infinity) with true.
  change (infinity + infinity)%float with infinity.
  apply IH.
Qed.



(** ** The clamp of [generateSignal] on binary64 numbers *)

Lemma SFcompare_antisym (x y : spec_float) :
  SFcompare y x = option_map CompOpp (SFcompare x y).
Proof.
  destruct x as [s|s| |s m e], y as [s'|s'| |s' m' e'];
    try reflexivity; try (destruct s; reflexivity);
    try (destruct s'; reflexivity);
    try (destruct s, s'; reflexivity).
  unfold SFcompare.
  rewrite (Z.compare_antisym e e'), !Pos.compare_cont_spec.
  rewrite (Pos.compare_antisym m m').
  destruct s, s'; try reflexivity;
    destruct (e ?= e')%Z; cbn; try reflexivity;
    destruct (m ?= m')%positive; reflexivity.
Qed.

(** Two floats, neither NaN and neither below the other, compare equal. *)
Lemma leb_of_not_ltb (x y : float) :
  PrimFloat.is_nan x = false -> PrimFloat.is_nan y = false ->
  PrimFloat.ltb y x = false ->
  PrimFloat.leb x y = true.
Proof.
  rewrite !is_nan_spec, ltb_spec, leb_spec. unfold SFltb, SFleb.
  rewrite (SFcompare_antisym (Prim2SF x) (Prim2SF y)).
  intros Hx Hy.
  destruct (Prim2SF x) as [s|s| |s m e] eqn:Ex; try discriminate;
    destruct (Prim2SF y) as [s'|s'| |s' m' e'] eqn:Ey; try discriminate;
    destruct (SFcompare _ _) as [[| |]|] eqn:Hc; cbn;
    try discriminate; try reflexivity;
    cbn in Hc; repeat match goal with
                      | s : bool |- _ => destruct s
                      end; discriminate.
Qed.

(** [Math.max(-2, Math.min(2, v))] is NaN, when [v] is, or a float from -2
    to 2. *)
Lemma clamp_binary64 (v : float) :
  (PrimFloat.is_nan v = true
   /\ Binary64.max (-2) (Binary64.min 2 v) = nan)
  \/ (PrimFloat.is_nan v = false
      /\ PrimFloat.leb (-2) (Binary64.max (-2) (Binary64.min 2 v)) = true
      /\ PrimFloat.leb (Binary64.max (-2) (Binary64.min 2 v)) 2 = true).
Proof.
  destruct (PrimFloat.is_nan v) eqn:Hnan.
  - left. split; [reflexivity|].
    rewrite (is_nan_eq v Hnan). reflexivity.
  - right. split; [reflexivity|].
    assert (Hmin : PrimFloat.is_nan (Binary64.min 2 v) = false
                   /\ PrimFloat.leb (Binary64.min 2 v) 2 = true).
    { unfold Binary64.min.
      change (PrimFloat.is_nan 2) with false. rewrite Hnan. cbn [orb].
      destruct (PrimFloat.ltb 2 v) eqn:Habove; [split; reflexivity|].
      destruct (PrimFloat.ltb v 2) eqn:Hbelow.
      - split; [exact Hnan|apply ltb_leb; exact Hbelow].
      - change (PrimFloat.get_sign 2) with false. cbn iota.
        split; [exact Hnan|].
        apply leb_of_not_ltb; [exact Hnan|reflexivity|exact Habove]. }
    destruct Hmin as [Hmnan Hmle].
    set (m := Binary64.min 2 v) in *.
    unfold Binary64.max.
    change (PrimFloat.is_nan (-2)) with false. rewrite Hmnan. cbn [orb].
    destruct (PrimFloat.ltb (-2) m) eqn:Habove.
    + split; [apply ltb_leb; exact Habove|exact Hmle].
    + destruct (PrimFloat.ltb m (-2)) eqn:Hbelow; [split; reflexivity|].
      change (PrimFloat.get_sign (-2)) with true. cbn iota.
      split; [|exact Hmle].
      apply leb_of_not_ltb; [reflexivity|exact Hmnan|exact Hbelow].
Qed.

(** The root of a float below 0 is NaN, and so is a product with it. *)
Lemma mul_sqrt_negative (x noiseVariance : float) :
  PrimFloat.ltb noiseVariance 0 = true ->
  PrimFloat.mul x (PrimFloat.sqrt noiseVariance) = nan.
Proof.
  rewrite ltb_spec. intros Hneg. apply Prim2SF_nan.
  rewrite mul_spec, sqrt_spec.
  change (Prim2SF 0) with (S754_zero false) in Hneg.
  destruct (Prim2SF noiseVariance) as [s|[|]| |[|] m e]; try discriminate;
    destruct (Prim2SF x) as [s'|s'| |s' m' e']; reflexivity.
Qed.

Lemma add_nan (x : float) : PrimFloat.add x nan = nan.
Proof.
  apply Prim2SF_nan. rewrite add_spec.
  change (Prim2SF nan) with S754_nan.
  destruct (Prim2SF x) as [s|s| |s m e]; reflexivity.
Qed.

(** X20: on binary64 numbers every value that [generateSignal] returns is NaN or
    a float from -2 to 2, whatever [Math.random] and [Math.sin] return and
    whatever the variance is; and with a variance below 0 every value is
    NaN. *)
Theorem generateSignal_binary64_range (math : JSMath float)
  (random : nat -> float) (N : nat) (noiseVariance : float) :
  Forall (fun point =>
            (value point = nan
             \/ (PrimFloat.leb (-2) (value point) = true
                 /\ PrimFloat.leb (value point) 2 = true))
            /\ (PrimFloat.ltb noiseVariance 0 = true -> value point = nan))
         (generateSignal random N noiseVariance).
Proof.
  apply Forall_forall. intros point Hin.
  apply In_nth_error in Hin. destruct Hin as [k Hk].
  apply signalLoop_nth in Hk. destruct Hk as [_ Hvalue].
  rewrite Hvalue.
  change (@Math_max float _) with Binary64.max.
  change (@Math_min float _) with Binary64.min.
  change (@of_Z float _ (-2)) with (-2)%float.
  change (@of_Z float _ 2) with 2%float.
  split.
  - match goal with
    | |- context [Binary64.min 2 ?v] =>
        destruct (clamp_binary64 v) as [[_ Hnan]|[_ Hrange]];
          [left; exact Hnan|right; exact Hrange]
    end.
  - intros Hneg.
    change (@mul float _) with PrimFloat.mul.
    change (@add float _) with PrimFloat.add.
    change (@Math_sqrt float _) with PrimFloat.sqrt.
    rewrite (mul_sqrt_negative _ noiseVariance Hneg), add_nan.
    reflexivity.
Qed.

(** ** The data of the sampling plot *)

Section SamplingDataFacts.
Context {num : Type} {number : JSNumber num} {math : JSMath num}.

(** X21: whenever the sampling instants are returned, the data of the plot holds
    500 instants of the continuous curve with the 500 values of the signal
    there, one sample per sampling instant, and the status of the rate; with
    the reconstruction switched on it holds 500 reconstructed values, none of
    them made from a missing sample, and none with it switched off. *)
Theorem samplingData_shape (fuel : nat) (tStart tEnd samplingRate : num)
  (showReconstruction : bool) (data : SamplingData) :
  samplingData fuel tStart tEnd samplingRate showReconstruction
  = Returned data ->
  generateSampleTimePoints fuel tStart tEnd samplingRate
  = Returned (sampleTimes data)
  /\ List.length (continuousTimes data) = 500%nat
  /\ List.length (originalValues data) = 500%nat
  /\ List.length (sampleValues data) = List.length (sampleTimes data)
  /\ sampleStatus data = getSamplingStatus samplingRate
  /\ (if showReconstruction
      then List.length (reconstructedValues data) = 500%nat
           /\ Forall (fun v => v <> None) (reconstructedValues data)
      else reconstructedValues data = []).
Proof.
  assert (Hcontinuous :
            List.length (generateContinuousTimePoints tStart tEnd 500)
            = 500%nat).
  { rewrite generateContinuousTimePoints_rounds, length_map.
    apply length_seq. }
  unfold samplingData.
  generalize dependent (generateContinuousTimePoints tStart tEnd 500).
  intros continuous Hcontinuous.
  destruct (generateSampleTimePoints fuel tStart tEnd samplingRate)
    as [times|e|]; try discriminate.
  intros [= <-].
  cbn [sampleTimes continuousTimes originalValues sampleValues sampleStatus
       reconstructedValues].
  split; [reflexivity|].
  split; [exact Hcontinuous|].
  split; [now rewrite length_map|].
  split; [unfold sampleSignal; apply length_map|].
  split; [reflexivity|].
  destruct showReconstruction; [|reflexivity].
  split; [now rewrite length_map|].
  apply Forall_forall. intros v Hv.
  apply in_map_iff in Hv. destruct Hv as [t [<- _]].
  assert (Hsamples : List.length (sampleSignal times) = List.length times).
  { unfold sampleSignal. apply length_map. }
  unfold sincReconstruct.
  destruct (findIndexFrom t times 0) as [c|] eqn:Hfind.
  - apply findIndexFrom_bounds in Hfind.
    destruct (reconstructLoop_defined
                t (div (of_Z 1) samplingRate) times (sampleSignal times)
                (Nat.min (List.length times) (c + 20) - (c - 20)) (c - 20)
                (of_Z 0)) as [x ->]; [lia|lia|discriminate].
  - destruct (reconstructLoop_defined
                t (div (of_Z 1) samplingRate) times (sampleSignal times)
                (List.length times - (List.length times - 20))
                (List.length times - 20) (of_Z 0)) as [x ->];
      [lia|lia|discriminate].
Qed.

End SamplingDataFacts.

Lemma nth_map_seq {A : Type} (f : nat -> A) (n j : nat) (d : A) :
  (j < n)%nat -> nth j (map f (seq 0 n)) d = f j.
Proof.
  intros Hj. apply nth_error_nth.
  rewrite nth_error_map, nth_error_seq.
  destruct (Nat.ltb_spec j n); [reflexivity|lia].
Qed.

Section SamplingDataExact.
Local Open Scope R_scope.

Lemma samplingData_shape_witness :
  exists (fuel : nat) (data : SamplingData),
    generateSampleTimePoints fuel 0 (/ 50) 500 = Returned (sampleTimes data)
    /\ List.length (continuousTimes data) = 500%nat
    /\ List.length (originalValues data) = 500%nat
    /\ List.length (sampleValues data) = List.length (sampleTimes data)
    /\ sampleStatus data = getSamplingStatus 500
    /\ List.length (reconstructedValues data) = 500%nat
    /\ Forall (fun v => v <> None) (reconstructedValues data).
Proof.
  destruct (generateSampleTimePoints_exact_returns 0 (/ 50) 500 ltac:(lra))
    as [fuel [times Htimes]].
  exists fuel.
  eexists.
  apply (samplingData_shape (num := R) fuel 0 (/ 50) 500 true).
  unfold samplingData. rewrite Htimes. reflexivity.
Defined.

(** X22: on exact numbers and for any positive rate, at or below the Nyquist rate
    too, the plot gets its data, and the reconstruction agrees with the
    signal at every sampling instant: there [sincReconstruct] returns the
    sample, which is the value of [originalSignal]. *)
Theorem samplingData_reconstruction_at_samples (tStart tEnd samplingRate : R)
  (showReconstruction : bool) :
  0 < samplingRate ->
  exists (fuel : nat) (data : SamplingData),
    samplingData fuel tStart tEnd samplingRate showReconstruction
    = Returned data
    /\ forall j : nat,
         (j < List.length (sampleTimes data))%nat ->
         sincReconstruct (nth j (sampleTimes data) 0) (sampleTimes data)
                         (sampleValues data) (1 / samplingRate)
         = Some (originalSignal (nth j (sampleTimes data) 0)).
Proof.
  intros Hrate.
  assert (HTs : 0 < 1 / samplingRate) by (apply Rdiv_lt_0_compat; lra).
  destruct (sampleLoop_instants tEnd (1 / samplingRate) tStart HTs)
    as [n [Hloop _]].
  exists (S n). eexists. split.
  - unfold samplingData, generateSampleTimePoints.
    change (div (of_Z 1) samplingRate) with (1 / samplingRate).
    rewrite (Hloop (S n) []) by lia. cbn [app]. reflexivity.
  - cbn [sampleTimes sampleValues].
    rewrite length_map, length_seq. intros j Hj.
    rewrite (nth_map_seq (instant tStart (1 / samplingRate)) n j 0 Hj).
    assert (Hsamples :
              List.length
                (sampleSignal (map (instant tStart (1 / samplingRate)) (seq 0 n)))
              = n).
    { unfold sampleSignal. now rewrite !length_map, length_seq. }
    unfold sincReconstruct.
    rewrite (findIndexFrom_grid tStart (1 / samplingRate) HTs j n 0 0) by lia.
    rewrite length_map, length_seq, Nat.add_0_l, Nat.sub_0_r.
    rewrite (reconstructLoop_grid tStart (1 / samplingRate) HTs n j _ Hsamples)
      by lia.
    destruct (Nat.leb_spec (j - 20) j) as [_|Hlow]; [|lia].
    destruct (Nat.ltb_spec j (j - 20 + (Nat.min n (j + 20) - (j - 20))))
      as [_|Hhigh]; [|lia].
    cbn [andb]. exact_arith. rewrite Rplus_0_l. f_equal.
    unfold sampleSignal. rewrite map_map.
    apply (nth_map_seq
             (fun k => originalSignal (instant tStart (1 / samplingRate) k))
             n j 0 Hj).
Qed.

Lemma samplingData_reconstruction_at_samples_witness :
  exists (fuel : nat) (data : SamplingData),
    samplingData fuel 0 (/ 50) 400 true = Returned data
    /\ forall j : nat,
         (j < List.length (sampleTimes data))%nat ->
         sincReconstruct (nth j (sampleTimes data) 0) (sampleTimes data)
                         (sampleValues data) (1 / 400)
         = Some (originalSignal (nth j (sampleTimes data) 0)).
Proof.
  apply (samplingData_reconstruction_at_samples 0 (/ 50) 400 true). lra.
Defined.

End SamplingDataExact.

(** ** The scales of the signal plot *)

Section SignalPlotExact.
Local Open Scope R_scope.

Lemma maxIndex_at_least (signal : list (SignalPoint R)) :
  1 <= maxIndex signal
  /\ forall point : SignalPoint R,
       In point signal -> index point <= maxIndex signal.
Proof.
  unfold maxIndex. exact_arith.
  induction signal as [|p signal [IH1 IH]]; cbn [map fold_right].
  - split; [lra|intros point []].
  - split.
    + eapply Rle_trans; [exact IH1|apply Rmax_r].
    + intros point [<-|Hin]; [apply Rmax_l|].
      eapply Rle_trans; [now apply IH|apply Rmax_r].
Qed.

(** A sample with an index that is not negative and a value from -2 to 2 is
    drawn inside the plot area. *)
Lemma scale_inside (signal : list (SignalPoint R)) (width height padding : R)
  (point : SignalPoint R) :
  In point signal ->
  0 <= index point ->
  -2 <= value point <= 2 ->
  2 * padding <= width ->
  2 * padding <= height ->
  padding <= scaleX signal width padding (index point) <= width - padding
  /\ padding <= scaleY height padding (value point) <= height - padding.
Proof.
  intros Hin Hindex Hvalue Hwidth Hheight.
  destruct (maxIndex_at_least signal) as [Hmax Hle].
  specialize (Hle point Hin).
  unfold scaleX, scaleY. exact_arith.
  set (m := maxIndex signal) in *.
  assert (Hx : 0 <= index point / m <= 1).
  { split.
    - apply Rdiv_nonneg; lra.
    - apply Rmult_le_reg_r with (r := m); [lra|].
      unfold Rdiv. rewrite Rmult_assoc, Rinv_l, Rmult_1_r by lra. lra. }
  assert (Hy : 0 <= (value point - -2) / (2 - -2) <= 1) by lra.
  generalize dependent (index point / m).
  generalize dependent ((value point - -2) / (2 - -2)).
  intros y Hy x Hx. split; split; nra.
Qed.



End SignalPlotExact.

(** ** The page: [calculateEntropy(generateSignal(N, 0.5))] *)

Section PageSignal.
Local Open Scope R_scope.

Lemma sqrt_half_bound : sqrt (1 / 2) <= 71 / 100.
Proof.
  rewrite <- (sqrt_square (71 / 100)) by lra.
  apply sqrt_le_1_alt. lra.
Qed.

(** With the variance 0.5 and draws from [0, 1) the clamp of
    [generateSignal] does nothing: the values stay within 1.21 of 0. *)
Lemma generateSignal_half_values (random : nat -> R) (N : nat)
  (point : SignalPoint R) :
  (forall i : nat, 0 <= random i < 1) ->
  In point (generateSignal random N lit_0_5) ->
  - (121 / 100) <= value point <= 121 / 100.
Proof.
  intros Hrandom Hin.
  apply In_nth_error in Hin. destruct Hin as [k Hk].
  apply signalLoop_nth in Hk. destruct Hk as [_ Hvalue].
  rewrite Hvalue. unfold lit_0_5. exact_arith.
  pose proof sqrt_half_bound as Hroot.
  pose proof (sqrt_pos (1 / 2)) as Hroot0.
  pose proof (SIN_bound (INR (1 + k) / INR N * 2 * PI)) as [Hsin Hsin'].
  specialize (Hrandom (1 + k)%nat).
  unfold of_nat. exact_arith. rewrite <- !INR_IZR_INZ.
  set (s := sin (INR (1 + k) / INR N * 2 * PI)) in *.
  set (r := random (1 + k)%nat) in *.
  set (q := sqrt (1 / 2)) in *.
  assert (Hnoise : - q <= (r - 1 / 2) * 2 * q <= q) by (split; nra).
  assert (Hraw : - (121 / 100) <= s * (1 / 2) + (r - 1 / 2) * 2 * q
                 <= 121 / 100) by lra.
  rewrite Rmin_right by lra. rewrite Rmax_right by lra. exact Hraw.
Qed.

(** A value within 1.21 of 0 falls into one of the bins 3 to 16. *)
Lemma binIndex_spec_middle (v : R) :
  - (121 / 100) <= v <= 121 / 100 -> (3 <= binIndex_spec 20 v <= 16)%Z.
Proof.
  intros Hv. unfold binIndex_spec.
  replace ((v - -2) / ((2 - -2) / INR 20)) with ((v + 2) * 5)
    by (cbn [INR]; field).
  pose proof (Zfloor_bound ((v + 2) * 5)) as [Hlow Hhigh].
  assert (H3 : (3 <= Zfloor ((v + 2) * 5))%Z) by (apply Zfloor_lub; lra).
  assert (H16 : (Zfloor ((v + 2) * 5) < 17)%Z) by (apply lt_IZR; lra).
  lia.
Qed.

Lemma occupiedBins_middle (signal : list (SignalPoint R)) :
  (forall point : SignalPoint R,
      In point signal -> (3 <= binIndex_spec 20 (value point) <= 16)%Z) ->
  (occupiedBins 20 signal <= 14)%nat.
Proof.
  intros Hbins. unfold occupiedBins.
  assert (Hempty : forall i : nat,
             (i < 3 \/ 16 < i)%nat -> (0 <? samplesInBin 20 signal i)%nat = false).
  { intros i Hi. apply Nat.ltb_ge. unfold samplesInBin.
    destruct (filter _ signal) as [|point rest] eqn:Hf; [cbn; lia|].
    assert (Hin : In point (point :: rest)) by now left.
    rewrite <- Hf in Hin. apply filter_In in Hin. destruct Hin as [Hin Heq].
    apply Z.eqb_eq in Heq. apply Hbins in Hin. lia. }
  change (seq 0 20) with (seq 0 3 ++ seq 3 14 ++ seq 17 3).
  rewrite !filter_app, !length_app.
  assert (Houter : forall l : list nat,
             (forall i, In i l -> (i < 3 \/ 16 < i)%nat) ->
             filter (fun i => (0 <? samplesInBin 20 signal i)%nat) l = []).
  { induction l as [|i l IH]; intros Hl; [reflexivity|].
    cbn [filter]. rewrite Hempty by (apply Hl; now left).
    apply IH. intros j Hj. apply Hl. now right. }
  rewrite (Houter (seq 0 3)), (Houter (seq 17 3)).
  - cbn [List.length]. rewrite Nat.add_0_r.
    etransitivity; [apply filter_length_le|]. now rewrite length_seq.
  - intros i Hi. apply in_seq in Hi. lia.
  - intros i Hi. apply in_seq in Hi. lia.
Qed.

End PageSignal.

(** X24: on exact numbers the page's signal, [generateSignal(N, 0.5)] with draws
    of [Math.random] from [0, 1), has every value within 1.21 of 0, so that
    only the bins 3 to 16 can hold a sample, and the entropy that
    [calculateEntropy] returns for it is at most [log2 14]. *)
Theorem generateSignal_entropy_at_most_log2_14 (random : nat -> R) (N : nat) :
  (forall i : nat, (0 <= random i < 1)%R) ->
  Forall (fun point => (- (121 / 100) <= value point <= 121 / 100)%R)
         (generateSignal random N lit_0_5)
  /\ exists result : EntropyResult R,
       calculateEntropy (generateSignal random N lit_0_5) = Some result
       /\ (entropy result <= Math_log2 (of_Z 14))%R.
Proof.
  intros Hrandom.
  assert (Hvalues : forall point : SignalPoint R,
             In point (generateSignal random N lit_0_5) ->
             (- (121 / 100) <= value point <= 121 / 100)%R).
  { intros point. now apply generateSignal_half_values. }
  split; [apply Forall_forall; exact Hvalues|].
  assert (Hlog : (0 <= ln 14 / ln 2)%R).
  { apply Rdiv_nonneg; [|apply ln_2_pos].
    rewrite <- ln_1. left. apply ln_increasing; lra. }
  destruct (generateSignal random N lit_0_5) as [|point rest] eqn:Hsignal.
  - eexists. split; [reflexivity|]. exact Hlog.
  - rewrite <- Hsignal in *.
    assert (Hne : generateSignal random N lit_0_5 <> [])
      by (rewrite Hsignal; discriminate).
    destruct (calculateEntropy_exact_steps _ Hne) as [Hresult _].
    cbn zeta in Hresult.
    eexists. split; [exact Hresult|].
    cbn [entropy]. exact_arith.
    eapply Rle_trans; [apply entropy_at_most_log2_occupied; exact Hne|].
    pose proof (occupiedBins_range _ Hne) as [Hlow _].
    assert (Hhigh : (occupiedBins 20 (generateSignal random N lit_0_5) <= 14)%nat).
    { apply occupiedBins_middle. intros p Hp.
      apply binIndex_spec_middle, Hvalues, Hp. }
    pose proof ln_2_pos as H2.
    apply Rmult_le_compat_r; [left; now apply Rinv_0_lt_compat|].
    apply le_INR in Hhigh. apply lt_0_INR in Hlow.
    replace (INR 14) with 14%R in Hhigh by (cbn [INR]; lra).
    destruct Hhigh as [Hlt|Heq]; [|rewrite Heq; apply Rle_refl].
    left. apply ln_increasing; assumption.
Qed.

Lemma generateSignal_entropy_at_most_log2_14_witness :
  Forall (fun point => (- (121 / 100) <= value point <= 121 / 100)%R)
         (generateSignal (fun _ => (/ 2)%R) 30 lit_0_5)
  /\ exists result : EntropyResult R,
       calculateEntropy (generateSignal (fun _ => (/ 2)%R) 30 lit_0_5)
       = Some result
       /\ (entropy result <= Math_log2 (of_Z 14))%R.
Proof.
  apply (generateSignal_entropy_at_most_log2_14 (fun _ => (/ 2)%R) 30).
  intros i. lra.
Defined.

(** ** The rates of the slider on binary64 numbers *)

Lemma sampleLoop_more_fuel {num : Type} {number : JSNumber num}
  (fuel more : nat) (end_ Ts t : num) (points result : list num) :
  (fuel <= more)%nat ->
  sampleLoop fuel end_ Ts t points = Returned result ->
  sampleLoop more end_ Ts t points = Returned result.
Proof.
  induction 1 as [|more _ IH]; intros Hret; [exact Hret|].
  apply sampleLoop_fuel_mono, IH, Hret.
Qed.

(** X25: on binary64 numbers, at each of the 91 positions of the rate slider of
    the exercise, 100 Hz to 1000 Hz in steps of 10 Hz, sampling the window
    from 0 to 0.02 s returns, after at most 21 rounds of the loop, with
    [floor(0.02 * fs + 0.5) + 1] instants, from 3 to 21 of them; and the
    status is [insufficient] below 500 Hz, [nyquist] at 500 Hz and
    [adequate] above. *)
Theorem samplingRate_slider_binary64 (k : nat) :
  (k <= 90)%nat ->
  let fs : float := of_Z (100 + 10 * Z.of_nat k) in
  (exists points : list float,
      (forall fuel : nat,
          (22 <= fuel)%nat ->
          generateSampleTimePoints fuel 0%float 0.02%float fs = Returned points)
      /\ List.length points = Z.to_nat ((25 + 2 * Z.of_nat k) / 10 + 1)
      /\ (3 <= List.length points <= 21)%nat)
  /\ getSamplingStatus fs
     = if (k <? 40)%nat then insufficient
       else if (k =? 40)%nat then nyquist else adequate.
Proof.
  intros Hk fs.
  set (check := fun k : nat =>
         let fs : float := of_Z (100 + 10 * Z.of_nat k) in
         match generateSampleTimePoints 22 0%float 0.02%float fs with
         | Returned points =>
             Nat.eqb (List.length points)
                     (Z.to_nat ((25 + 2 * Z.of_nat k) / 10 + 1))
         | _ => false
         end
         && match getSamplingStatus fs,
                  (if (k <? 40)%nat then insufficient
                   else if (k =? 40)%nat then nyquist else adequate) with
            | adequate, adequate | nyquist, nyquist
            | insufficient, insufficient => true
            | _, _ => false
            end).
  assert (Hall : forallb check (seq 0 91) = true) by (vm_compute; reflexivity).
  rewrite forallb_forall in Hall.
  assert (Hcheck : check k = true) by (apply Hall, in_seq; lia).
  unfold check in Hcheck. cbn zeta in Hcheck. fold fs in Hcheck.
  apply andb_prop in Hcheck. destruct Hcheck as [Hpoints Hstatus].
  split.
  - destruct (generateSampleTimePoints 22 0%float 0.02%float fs)
      as [points| |] eqn:Hreturn; try discriminate.
    apply Nat.eqb_eq in Hpoints.
    exists points. split; [|split].
    + intros fuel Hfuel.
      apply (sampleLoop_more_fuel 22 fuel); assumption.
    + exact Hpoints.
    + rewrite Hpoints.
      assert (Hlow : (2 <= (25 + 2 * Z.of_nat k) / 10)%Z)
        by (apply Z.div_le_lower_bound; lia).
      assert (Hhigh : ((25 + 2 * Z.of_nat k) / 10 < 21)%Z)
        by (apply Z.div_lt_upper_bound; lia).
      lia.
  - destruct (getSamplingStatus fs),
      (if (k <? 40)%nat then insufficient
       else if (k =? 40)%nat then nyquist else adequate);
      try discriminate; reflexivity.
Qed.

Lemma samplingRate_slider_binary64_witness :
  let fs : float := of_Z (100 + 10 * Z.of_nat 40) in
  (exists points : list float,
      (forall fuel : nat,
          (22 <= fuel)%nat ->
          generateSampleTimePoints fuel 0%float 0.02%float fs = Returned points)
      /\ List.length points = Z.to_nat ((25 + 2 * Z.of_nat 40) / 10 + 1)
      /\ (3 <= List.length points <= 21)%nat)
  /\ getSamplingStatus fs
     = if (40 <? 40)%nat then insufficient
       else if (40 =? 40)%nat then nyquist else adequate.
Proof.
  apply (samplingRate_slider_binary64 40). lia.
Defined.
